(** * gen.py: keeping the doc comment of [src/lib.rs] and the usage
    section of [ReadMe.md] in step with [src/example.rs]

    A shallow embedding of [src/meta/gen.py] and the properties of its
    three text transformations: [decorate], the library splice (the
    module variable [lib]) and the readme splice (the module variable
    [readme]), together with the script as a whole ([gen]) run against a
    file store. *)

From Stdlib Require Import Ascii String.
From stdpp Require Import base option list strings gmap.

(** ** Python values *)

(** A Python [str] is a sequence of characters. *)
Abbreviation str := (list ascii).

(** String literals; the line feed is written [nl]. *)
Definition py (s : string) : str := list_ascii_of_string s.
Definition nl : str := ["010"%char].

(** The exceptions the script can meet. *)
Inductive exn : Set :=
  | IndexError          (* list index out of range *)
  | FileNotFoundError.  (* [open] of a path that is not there *)

Inductive result (A : Type) : Type :=
  | Ok (a : A)
  | Raise (e : exn).
Arguments Ok {A} a.
Arguments Raise {A} e.

Definition bind {A B} (r : result A) (k : A → result B) : result B :=
  match r with
  | Ok a => k a
  | Raise e => Raise e
  end.

(** [l[i]] for a list and a non-negative index. *)
Definition getitem {A} (l : list A) (i : nat) : result A :=
  match l !! i with
  | Some x => Ok x
  | None => Raise IndexError
  end.

(** ** Splitting: [str.split] and [re.split]

    Both scan the text from the left for the next match, cut the text
    there, and go on behind the match.  A pattern is an ordered
    alternation of literal words: the separator alone for [str.split],
    the alternatives of [w1|w2] for the regular expression.  Every word
    of every pattern in [gen.py] is a non-empty literal; the empty
    separator ([ValueError] for [str.split]) and patterns that match the
    empty string are outside this model. *)

(** [s.startswith(w)] *)
Fixpoint startswith (s w : str) {struct w} : bool :=
  match w, s with
  | [], _ => true
  | _ :: _, [] => false
  | a :: w', b :: s' => Ascii.eqb a b && startswith s' w'
  end.

(** The length of the match at the head of [s]: the first alternative,
    in order, that [s] starts with. *)
Fixpoint match_here (p : list str) (s : str) : option nat :=
  match p with
  | [] => None
  | w :: p' => if startswith s w then Some (length w) else match_here p' s
  end.

(** The leftmost match in [s]: where it starts and how long it is. *)
Fixpoint search (p : list str) (s : str) : option (nat * nat) :=
  match match_here p s with
  | Some n => Some (0, n)
  | None =>
      match s with
      | [] => None
      | _ :: s' => prod_map S id <$> search p s'
      end
  end.

(** The segments between successive matches.  Each round consumes at
    least one character, so [S (length s)] rounds always suffice
    ([split_on_unfold] below). *)
Fixpoint split_fuel (fuel : nat) (p : list str) (s : str) : list str :=
  match fuel with
  | 0 => [s]
  | S fuel' =>
      match search p s with
      | None => [s]
      | Some (i, n) => take i s :: split_fuel fuel' p (drop (i + n) s)
      end
  end.

Definition split_on (p : list str) (s : str) : list str :=
  split_fuel (S (length s)) p s.

(** [s.split(sep)] *)
Definition str_split (s sep : str) : list str := split_on [sep] s.

(** [re.split(p, s)], the pattern given by its alternatives *)
Definition re_split (p : list str) (s : str) : list str := split_on p s.

(** [sep.join(l)] *)
Fixpoint join (sep : str) (l : list str) : str :=
  match l with
  | [] => []
  | x :: l' =>
      match l' with
      | [] => x
      | _ :: _ => x ++ sep ++ join sep l'
      end
  end.

(** ** The functions of gen.py *)

(** [def decorate(text, pre)] *)
Definition decorate (text pre : str) : str :=
  join nl (map (λ line, pre ++ line) (str_split text nl)).

(** The anchor of [src/lib.rs] and the anchors of [ReadMe.md]. *)
Definition marker : str := py "// lib" ++ nl.
Definition usage : str := py "# Usage" ++ nl.
Definition logging : str := py "# Logging" ++ nl.

(** The pattern ["# Usage\n|# Logging\n"]. *)
Definition anchors : list str := [usage; logging].

(** The literals ["\n\n// lib\n"], ["# Usage\n\n```rust\n"] and
    ["```\n\n# Logging\n"]. *)
Definition lib_header : str := nl ++ nl ++ marker.
Definition fence_open : str := usage ++ nl ++ py "```rust" ++ nl.
Definition fence_close : str := py "```" ++ nl ++ nl ++ logging.

(** Lines 19 and 21: the new text of [src/lib.rs], from the example and
    the old text of the file.
<<
    parts = read_file("src/lib.rs").split("// lib\n")
    lib = decorate(example, "//!") + "\n\n// lib\n" + parts[1]
>> *)
Definition lib (example text : str) : result str :=
  let parts := str_split text marker in
  let doc := decorate example (py "//!") in
  bind (getitem parts 1) (λ tail,
  Ok (doc ++ lib_header ++ tail)).

(** Lines 25 to 28: the new text of [ReadMe.md].
<<
    parts = re.split("# Usage\n|# Logging\n", read_file("ReadMe.md"))
    readme = parts[0] + "# Usage\n\n```rust\n" + example
    readme = readme + "```\n\n# Logging\n" + parts[2]
>> *)
Definition readme (example text : str) : result str :=
  let parts := re_split anchors text in
  bind (getitem parts 0) (λ head,
  let readme := head ++ fence_open ++ example in
  bind (getitem parts 2) (λ tail,
  Ok (readme ++ fence_close ++ tail))).

(** ** The script and the files *)

(** The files, by path.  The store holds the files that [open] can open,
    each with its text as text mode delivers it, that is after decoding
    and after the translation of line ends; a path that is not in the
    store is a file that is not there.  Files that exist but cannot be
    opened, decoded or written ([OSError], [UnicodeDecodeError]) have no
    counterpart here: every statement about a run below is about a run
    whose three files can be read and written.  A run is a computation
    over the store that may stop with an exception; what was written
    before stays written. *)
Definition M (A : Type) : Type := gmap string str → result A * gmap string str.

Definition ret {A} (a : A) : M A := λ fs, (Ok a, fs).

Definition mbind {A B} (m : M A) (k : A → M B) : M B :=
  λ fs, match m fs with
        | (Ok a, fs') => k a fs'
        | (Raise e, fs') => (Raise e, fs')
        end.

Definition lift {A} (r : result A) : M A := λ fs, (r, fs).

Notation "x ← m ; k" := (mbind m (λ x, k))
  (at level 20, m at level 100, k at level 200, only parsing).
Notation "m ;; k" := (mbind m (λ _, k))
  (at level 100, k at level 200, right associativity, only parsing).

(** [def read_file(path)]: the text of the file, or [FileNotFoundError]
    when there is none. *)
Definition read_file (path : string) : M str :=
  λ fs, match fs !! path with
        | Some content => (Ok content, fs)
        | None => (Raise FileNotFoundError, fs)
        end.

(** [def write_file(path, content)]: mode ["w"] creates or truncates the
    file, so the new text replaces the old one.  The texts that the
    script writes are made of texts it has read and of literals without
    carriage return, so they read back as they were written. *)
Definition write_file (path : string) (content : str) : M unit :=
  λ fs, (Ok tt, <[path := content]> fs).

(** The module body, lines 18 to 30. *)
Definition gen : M unit :=
  example ← read_file "src/example.rs";
  text ← read_file "src/lib.rs";
  new_lib ← lift (lib example text);
  write_file "src/lib.rs" new_lib;;
  text ← read_file "ReadMe.md";
  new_readme ← lift (readme example text);
  write_file "ReadMe.md" new_readme.

(** ** What the scan finds

    [hit p s i]: one of the words of [p] occurs in [s] at offset [i]. *)
Definition hit (p : list str) (s : str) (i : nat) : Prop :=
  ∃ w, w ∈ p ∧ w `prefix_of` drop i s.

(** No word of [p] occurs anywhere in [s]. *)
Definition absent (p : list str) (s : str) : Prop := ∀ i, ¬ hit p s i.

(** No match starts inside [a] when [a] is followed by [rest]. *)
Definition clear (p : list str) (a rest : str) : Prop :=
  ∀ j, j < length a → ¬ hit p (a ++ rest) j.

(** [tail] is [rest] up to its first match, or all of [rest] when there
    is none. *)
Definition up_to_match (p : list str) (tail rest : str) : Prop :=
  (absent p rest ∧ tail = rest) ∨
  (∃ w more, w ∈ p ∧ rest = tail ++ w ++ more ∧ clear p tail (w ++ more)).

(** The line feed, and the lines of a text: the non-empty list of
    strings without line feed that gives the text when joined. *)
Definition LF : ascii := "010"%char.

Definition lines (text : str) (ls : list str) : Prop :=
  ls ≠ [] ∧ Forall (λ l, LF ∉ l) ls ∧ text = join nl ls.

(** The files of the end-to-end scenario of the spec. *)
Definition scenario : gmap string str :=
  <["src/example.rs" := py "fn main() {}" ++ nl]>
  (<["src/lib.rs" := py "old header" ++ nl ++ py "// lib" ++ nl ++
                     py "fn keep() {}" ++ nl]>
  (<["ReadMe.md" := py "Intro" ++ nl ++ py "# Usage" ++ nl ++
                    py "old usage" ++ nl ++ py "# Logging" ++ nl ++
                    py "Log info"]> ∅)).

(** Files whose example has a line that ends with the marker. *)
Definition marked_example : gmap string str :=
  <["src/example.rs" := py "mod m; // lib" ++ nl]>
  (<["src/lib.rs" := marker ++ py "pub fn f() {}" ++ nl]>
  (<["ReadMe.md" := usage ++ logging]> ∅)).

(** * Properties *)

Lemma startswith_prefix s w : startswith s w = true ↔ w `prefix_of` s.
Proof.
  revert s; induction w as [|a w IH]; intros [|b s]; simpl.
  - split; [intros _; apply prefix_nil | done].
  - split; [intros _; apply prefix_nil | done].
  - split; [done | by intros ?%prefix_nil_inv].
  - rewrite andb_true_iff, Ascii.eqb_eq, IH. split.
    + intros [-> ?]. by apply prefix_cons.
    + intros H. split; [by eapply prefix_cons_inv_1 | by eapply prefix_cons_inv_2].
Qed.

Lemma match_here_Some p s n :
  match_here p s = Some n → ∃ w, w ∈ p ∧ length w = n ∧ w `prefix_of` s.
Proof.
  induction p as [|w p IH]; simpl; [done|].
  destruct (startswith s w) eqn:E.
  - intros [= <-]. exists w. split_and!; [left | done | by apply startswith_prefix].
  - intros (w' & ? & ? & ?)%IH. exists w'. split_and!; [by right | done..].
Qed.

Lemma match_here_None p s :
  match_here p s = None ↔ ∀ w, w ∈ p → ¬ w `prefix_of` s.
Proof.
  induction p as [|w p IH]; simpl.
  - split; [intros _ w' Hw'; inversion Hw' | done].
  - destruct (startswith s w) eqn:E.
    + split; [done|]. intros H. destruct (H w); [left | by apply startswith_prefix].
    + rewrite IH. split.
      * intros H w' [->|?]%elem_of_cons; [|by apply H].
        rewrite <-startswith_prefix. congruence.
      * intros H w' ?. apply H. by right.
Qed.

Lemma match_here_hit p s i : is_Some (match_here p (drop i s)) ↔ hit p s i.
Proof.
  split.
  - intros [n (w & ? & ? & ?)%match_here_Some]. by exists w.
  - intros (w & Hw & Hpre). destruct (match_here p (drop i s)) eqn:E; [done|].
    rewrite match_here_None in E. by destruct (E w).
Qed.

Lemma match_here_no_hit p s i : match_here p (drop i s) = None ↔ ¬ hit p s i.
Proof. rewrite <-match_here_hit, <-eq_None_not_Some. done. Qed.

(** [search] returns the first offset at which the pattern matches. *)
Lemma search_Some p s i n :
  search p s = Some (i, n) →
  match_here p (drop i s) = Some n ∧ ∀ j, j < i → match_here p (drop j s) = None.
Proof.
  revert i; induction s as [|c s IH]; intros i; simpl.
  - destruct (match_here p []) eqn:E; [|done].
    intros [= <- <-]. split; [done | lia].
  - destruct (match_here p (c :: s)) eqn:E.
    + intros [= <- <-]. split; [done | lia].
    + destruct (search p s) as [[i' n']|] eqn:Es; [|done].
      intros [= <- <-]. destruct (IH _ eq_refl) as [? Hlt]. split; [done|].
      intros [|j] ?; [done|]. apply Hlt. lia.
Qed.

Lemma search_None p s : search p s = None → ∀ j, match_here p (drop j s) = None.
Proof.
  induction s as [|c s IH]; simpl.
  - destruct (match_here p []) eqn:E; [done|]. intros _ j. by rewrite drop_nil.
  - destruct (match_here p (c :: s)) eqn:E; [done|].
    destruct (search p s) as [[i' n']|] eqn:Es; [done|].
    intros _ [|j]; [done|]. by apply IH.
Qed.

Lemma search_first p s i n :
  match_here p (drop i s) = Some n →
  (∀ j, j < i → match_here p (drop j s) = None) →
  search p s = Some (i, n).
Proof.
  revert s; induction i as [|i IH]; intros s Hi Hlt.
  - rewrite drop_0 in Hi. destruct s; simpl; by rewrite Hi.
  - assert (H0 : match_here p s = None) by (apply (Hlt 0); lia).
    destruct s as [|c s]; simpl.
    + rewrite drop_nil in Hi. congruence.
    + rewrite H0. rewrite (IH s); [done | done |].
      intros j ?. apply (Hlt (S j)). lia.
Qed.

Lemma search_absent p s : absent p s → search p s = None.
Proof.
  intros Ha. destruct (search p s) as [[i n]|] eqn:E; [|done].
  apply search_Some in E as [E _]. destruct (Ha i).
  apply match_here_hit. by rewrite E.
Qed.

Lemma search_bounds p s i n :
  [] ∉ p → search p s = Some (i, n) → 0 < n ∧ i + n ≤ length s.
Proof.
  intros Hp [(w & Hw & <- & Hpre)%match_here_Some _]%search_Some.
  apply prefix_length in Hpre. rewrite length_drop in Hpre.
  destruct w; [done|]. simpl in *. lia.
Qed.

(** The fuel does not matter once it exceeds the length of the text. *)
Lemma split_fuel_enough p s f1 f2 :
  [] ∉ p → length s < f1 → length s < f2 →
  split_fuel f1 p s = split_fuel f2 p s.
Proof.
  intros Hp. revert f2 s; induction f1 as [|f1 IH]; intros [|f2] s ??; [lia..|].
  simpl. destruct (search p s) as [[i n]|] eqn:E; [|done].
  apply search_bounds in E as [??]; [|done].
  f_equal. apply IH; rewrite length_drop; lia.
Qed.

(** The equation of the loop. *)
Lemma split_on_unfold p s :
  [] ∉ p →
  split_on p s =
    match search p s with
    | None => [s]
    | Some (i, n) => take i s :: split_on p (drop (i + n) s)
    end.
Proof.
  intros Hp. unfold split_on at 1. simpl.
  destruct (search p s) as [[i n]|] eqn:E; [|done].
  apply search_bounds in E as [??]; [|done].
  f_equal. apply split_fuel_enough; [done|..]; rewrite length_drop; lia.
Qed.

(** ** Occurrences and concatenation *)

Lemma prefix_app_short (w d e : str) :
  w `prefix_of` d ++ e → length w ≤ length d → w `prefix_of` d.
Proof.
  intros [k Hk] Hlen.
  assert (take (length w) (d ++ e) = w) as Hw
    by (by rewrite Hk, take_app_length).
  rewrite take_app_le in Hw by done. rewrite <-Hw. apply prefix_take.
Qed.

Lemma prefix_app_long (w d e : str) i :
  w `prefix_of` d ++ e → i < length w → w !! i = (d ++ e) !! i.
Proof. intros. by apply prefix_lookup_lt. Qed.

Lemma hit_app_l p a b j : hit p a j → hit p (a ++ b) j.
Proof.
  intros (w & Hw & Hpre). exists w. split; [done|].
  destruct (decide (j ≤ length a)).
  - rewrite drop_app_le by done. by apply prefix_app_r.
  - rewrite drop_ge in Hpre by lia. apply prefix_nil_inv in Hpre as ->.
    apply prefix_nil.
Qed.

Lemma hit_app_r p a b j : hit p (a ++ b) (length a + j) ↔ hit p b j.
Proof. unfold hit. by rewrite drop_app_add. Qed.

Lemma hit_lt_length p s j : [] ∉ p → hit p s j → j < length s.
Proof.
  intros Hp (w & Hw & Hpre). destruct (decide (j < length s)); [done|].
  rewrite drop_ge in Hpre by lia. apply prefix_nil_inv in Hpre as ->. done.
Qed.

(** A match that starts inside [a] and runs into what follows has the
    first character of what follows somewhere behind its own first. *)
Lemma hit_app_inv p a c b j :
  (∀ w, w ∈ p → c ∉ tail w) →
  j < length a → hit p (a ++ c :: b) j → hit p a j.
Proof.
  intros Hc Hj (w & Hw & Hpre). exists w. split; [done|].
  rewrite drop_app_le in Hpre by lia.
  destruct (decide (length w ≤ length (drop j a))) as [|Hlong].
  { by eapply prefix_app_short. }
  destruct (Hc w Hw).
  assert (w !! length (drop j a) = Some c) as Hlook.
  { erewrite prefix_app_long; [|done|lia]. by apply list_lookup_middle. }
  rewrite length_drop in Hlook.
  destruct w as [|x w]; [done|]. simpl.
  replace (length a - j) with (S (length a - j - 1)) in Hlook by lia.
  by eapply list_elem_of_lookup_2.
Qed.

(** When every word ends in [c] and has no other [c], a match that
    starts inside [a], in front of a [c], ends at that [c] at the latest. *)
Lemma hit_app_inv_last p a c b j :
  (∀ w, w ∈ p → ∃ u, w = u ++ [c] ∧ c ∉ u) →
  j < length a → hit p (a ++ c :: b) j → hit p (a ++ [c]) j.
Proof.
  intros Hc Hj (w & Hw & Hpre). exists w. split; [done|].
  rewrite drop_app_le in * by lia.
  destruct (Hc w Hw) as (u & -> & Hu).
  destruct (decide (length u ≤ length (drop j a))) as [|Hlong].
  - change (c :: b) with ([c] ++ b) in Hpre. rewrite (assoc_L (++)) in Hpre.
    eapply prefix_app_short; [done|]. rewrite !length_app. simpl. lia.
  - destruct Hu.
    assert ((u ++ [c]) !! length (drop j a) = Some c) as Hlook.
    { erewrite prefix_app_long; [|done|rewrite length_app; simpl; lia].
      by apply list_lookup_middle. }
    rewrite lookup_app_l in Hlook by lia.
    by eapply list_elem_of_lookup_2.
Qed.

Lemma clear_nil p rest : clear p [] rest.
Proof. intros j. simpl. lia. Qed.

Lemma clear_app p a b rest :
  clear p a (b ++ rest) → clear p b rest → clear p (a ++ b) rest.
Proof.
  intros Ha Hb j Hj. rewrite length_app in Hj. rewrite <-(assoc_L (++)).
  destruct (decide (j < length a)) as [|Hge]; [by apply Ha|].
  replace j with (length a + (j - length a)) by lia.
  rewrite hit_app_r. apply Hb. lia.
Qed.

(** A stretch of text without the first character of any word. *)
Lemma clear_region p a rest h :
  (∀ w, w ∈ p → head w = Some h) → h ∉ a → clear p a rest.
Proof.
  intros Hh Ha j Hj (w & Hw & Hpre). destruct Ha.
  specialize (Hh w Hw). destruct w as [|x w]; simplify_eq/=.
  assert ((a ++ rest) !! (j + 0) = Some h) as Hlook.
  { rewrite <-lookup_drop. by apply (prefix_lookup_Some (h :: w)). }
  rewrite Nat.add_0_r, lookup_app_l in Hlook by done.
  by eapply list_elem_of_lookup_2.
Qed.

Lemma clear_absent p a rest : [] ∉ p → clear p a rest → absent p a.
Proof.
  intros Hp Ha j Hhit. apply (Ha j).
  - by eapply hit_lt_length.
  - by apply hit_app_l.
Qed.

Lemma absent_clear p a c rest :
  (∀ w, w ∈ p → c ∉ tail w) → absent p a → clear p a (c :: rest).
Proof. intros Hc Ha j Hj Hhit. apply (Ha j). by eapply hit_app_inv. Qed.

Lemma absent_clear_nil p a : absent p a → clear p a [].
Proof. intros Ha j _. rewrite (right_id_L [] (++)). apply Ha. Qed.

(** ** Where the text is cut *)

Section split_on.
Variable p : list str.
Hypothesis p_nonempty : [] ∉ p.

(** No match: the text comes back whole. *)
Lemma split_on_absent s : absent p s → split_on p s = [s].
Proof. intros Ha. by rewrite split_on_unfold, search_absent. Qed.

(** The first match is the word [w] behind [a]: the first segment is
    [a] and the scan goes on behind [w]. *)
Lemma split_on_cut a w rest :
  clear p a (w ++ rest) →
  match_here p (w ++ rest) = Some (length w) →
  split_on p (a ++ w ++ rest) = a :: split_on p rest.
Proof.
  intros Ha Hw. rewrite split_on_unfold by done.
  rewrite (search_first _ _ (length a) (length w)).
  - rewrite take_app_length, <-drop_drop, drop_app_length.
    by rewrite drop_app_length.
  - by rewrite drop_app_length.
  - intros j Hj. apply match_here_no_hit. by apply Ha.
Qed.

(** Conversely, two segments or more mean that a word was found behind
    the first segment. *)
Lemma split_on_inv s x y tl :
  split_on p s = x :: y :: tl →
  ∃ w rest, s = x ++ w ++ rest ∧ w ∈ p ∧
    match_here p (w ++ rest) = Some (length w) ∧
    clear p x (w ++ rest) ∧ split_on p rest = y :: tl.
Proof.
  rewrite split_on_unfold by done.
  destruct (search p s) as [[i n]|] eqn:E; [|done].
  intros [= <- Htl]. pose proof (search_bounds _ _ _ _ p_nonempty E) as [? ?].
  apply search_Some in E as [Hi Hlt].
  destruct (match_here_Some _ _ _ Hi) as (w & Hw & <- & [rest Hrest]).
  assert (s = take i s ++ w ++ rest) as Hs.
  { by rewrite <-Hrest, take_drop. }
  assert (drop (i + length w) s = rest) as Hdrop.
  { by rewrite <-drop_drop, Hrest, drop_app_length. }
  exists w, rest. split_and!; [done | done | by rewrite <-Hrest | | by rewrite <-Hdrop].
  rewrite <-Hrest. intros j Hj. rewrite take_drop.
  apply match_here_no_hit, Hlt. rewrite length_take in Hj. lia.
Qed.

(** No segment contains a match. *)
Lemma split_on_segments_absent s : Forall (absent p) (split_on p s).
Proof.
  remember (length s) as k eqn:Hk. revert s Hk.
  induction k as [k IH] using lt_wf_ind; intros s ->.
  rewrite split_on_unfold by done.
  destruct (search p s) as [[i n]|] eqn:E.
  - pose proof (search_bounds _ _ _ _ p_nonempty E) as [? ?].
    apply search_Some in E as [_ Hlt]. constructor.
    + apply (clear_absent _ _ (drop i s)); [done|].
      intros j Hj. rewrite take_drop. apply match_here_no_hit, Hlt.
      rewrite length_take in Hj. lia.
    + eapply IH; [|done]. rewrite length_drop. lia.
  - constructor; [|done]. intros j. apply match_here_no_hit.
    by apply search_None.
Qed.
End split_on.

(** ** The patterns of gen.py *)

Lemma marker_nonempty : [] ∉ [marker].
Proof. by intros [=]%list_elem_of_singleton. Qed.

Lemma nl_nonempty : [] ∉ [nl].
Proof. by intros [=]%list_elem_of_singleton. Qed.

Lemma anchors_nonempty : [] ∉ anchors.
Proof. unfold anchors. by intros [[=]|[=]%list_elem_of_singleton]%elem_of_cons. Qed.

Lemma match_here_marker rest :
  match_here [marker] (marker ++ rest) = Some (length marker).
Proof. reflexivity. Qed.

Lemma match_here_anchor w rest :
  w ∈ anchors → match_here anchors (w ++ rest) = Some (length w).
Proof. by intros [->| ->%list_elem_of_singleton]%elem_of_cons. Qed.

(** ** Reading the scan off a computation *)

Lemma absent_by_search p s : search p s = None → absent p s.
Proof. intros E i. apply match_here_no_hit. by apply search_None. Qed.

Lemma clear_by_search p a rest i n :
  search p (a ++ rest) = Some (i, n) → length a ≤ i → clear p a rest.
Proof.
  intros [_ Hlt]%search_Some Hi j Hj. apply match_here_no_hit, Hlt. lia.
Qed.

Lemma hit_by_match p s i n : match_here p (drop i s) = Some n → hit p s i.
Proof. intros E. apply match_here_hit. by rewrite E. Qed.

Lemma hit_search p s i : hit p s i → ∃ i0 n, search p s = Some (i0, n) ∧ i0 ≤ i.
Proof.
  intros Hhit. destruct (search p s) as [[i0 n]|] eqn:E.
  - exists i0, n. split; [done|]. apply search_Some in E as [_ Hlt].
    destruct (decide (i0 ≤ i)); [done|].
    apply match_here_no_hit in Hhit; [done|]. apply Hlt. lia.
  - by apply absent_by_search in E; destruct (E i).
Qed.

(** ** Indexing *)

Lemma getitem_Ok {A} (l : list A) i x : l !! i = Some x → getitem l i = Ok x.
Proof. unfold getitem. by intros ->. Qed.

Lemma getitem_Raise {A} (l : list A) i :
  length l ≤ i → getitem l i = Raise IndexError.
Proof. unfold getitem. by intros ->%lookup_ge_None. Qed.

(** ** The head of a split *)

Lemma split_on_nonempty p s : split_on p s ≠ [].
Proof. unfold split_on. simpl. by destruct (search p s) as [[??]|]. Qed.

Lemma up_to_match_exists p s : ∃ tail, up_to_match p tail s.
Proof.
  destruct (search p s) as [[i n]|] eqn:E.
  - pose proof E as [Hi Hlt]%search_Some.
    destruct (match_here_Some _ _ _ Hi) as (w & Hw & <- & [more Hmore]).
    exists (take i s). right. exists w, more. rewrite <-Hmore.
    split_and!; [done | by rewrite take_drop |].
    intros j Hj. rewrite take_drop. apply match_here_no_hit, Hlt.
    rewrite length_take in Hj. lia.
  - exists s. left. split; [|done]. by apply absent_by_search.
Qed.

Lemma split_on_head p s tail :
  [] ∉ p → up_to_match p tail s → ∃ tl, split_on p s = tail :: tl.
Proof.
  intros Hp [[Ha ->]|(w & more & Hw & -> & Hclear)].
  - exists []. by apply split_on_absent.
  - assert (hit p (tail ++ w ++ more) (length tail)) as Hhit.
    { exists w. split; [done|]. rewrite drop_app_length. by apply prefix_app_r. }
    apply match_here_hit in Hhit as [n Hn].
    rewrite split_on_unfold, (search_first _ _ (length tail) n) by
      (try done; intros j Hj; by apply match_here_no_hit, Hclear).
    rewrite take_app_length. eauto.
Qed.

Lemma up_to_match_prefix p tail s : up_to_match p tail s → tail `prefix_of` s.
Proof. intros [[_ ->]|(w & more & _ & -> & _)]; [done|]. by apply prefix_app_r. Qed.

(** ** The library splice *)

Lemma lib_parts example text x y tl :
  str_split text marker = x :: y :: tl →
  lib example text = Ok (decorate example (py "//!") ++ lib_header ++ y).
Proof. unfold lib. by intros ->. Qed.

Lemma str_split_marker_cut before rest :
  clear [marker] before (marker ++ rest) →
  str_split (before ++ marker ++ rest) marker = before :: str_split rest marker.
Proof.
  intros Hfirst.
  by apply split_on_cut; [apply marker_nonempty | | apply match_here_marker].
Qed.

Lemma gen_lib_raises fs example text e :
  fs !! "src/example.rs" = Some example → fs !! "src/lib.rs" = Some text →
  lib example text = Raise e → gen fs = (Raise e, fs).
Proof.
  intros He Ht Hl. unfold gen, mbind, read_file, lift. by rewrite He, Ht, Hl.
Qed.

(** C7: a library text without the marker makes [parts[1]] raise
    [IndexError] (the spec's MissingAnchorError): the splice yields no
    text, and a run stops there with the files as they were. *)
Theorem lib_without_marker example text :
  absent [marker] text →
  getitem (str_split text marker) 1 = Raise IndexError ∧
  lib example text = Raise IndexError ∧
  ∀ fs, fs !! "src/example.rs" = Some example →
        fs !! "src/lib.rs" = Some text →
        gen fs = (Raise IndexError, fs).
Proof.
  intros Ha.
  assert (str_split text marker = [text]) as Hs
    by (by apply split_on_absent; [apply marker_nonempty|]).
  assert (lib example text = Raise IndexError) as Hl
    by (unfold lib; by rewrite Hs).
  split_and!; [by rewrite Hs | done |].
  intros fs ??. by eapply gen_lib_raises.
Qed.

Lemma lib_without_marker_witness :
  lib (py "fn main() {}") (py "mod a;" ++ nl ++ py "// library" ++ nl)
  = Raise IndexError.
Proof.
  apply (lib_without_marker (py "fn main() {}")
           (py "mod a;" ++ nl ++ py "// library" ++ nl)).
  apply absent_by_search. reflexivity.
Defined.

(** C8, as the spec has it, fails: ["foo(); // lib\n// lib\ntail"] has
    exactly one line that is ["// lib"], with ["tail"] behind it, but
    the text is cut at the end of its first line, [parts[1]] is empty
    and the new library text does not end with ["tail"]. *)
Lemma lib_one_marker_line_refuted :
  ¬ (∀ example ls1 ls2,
       Forall (λ l, LF ∉ l) (ls1 ++ py "// lib" :: ls2) →
       py "// lib" ∉ ls1 → py "// lib" ∉ ls2 → ls2 ≠ [] →
       ∃ out, lib example (join nl (ls1 ++ py "// lib" :: ls2)) = Ok out ∧
              join nl ls2 `suffix_of` out).
Proof.
  intros H.
  destruct (H (py "E") [py "foo(); // lib"] [py "tail"]) as (out & Hout & Hsuf).
  - repeat constructor; compute_done.
  - compute_done.
  - compute_done.
  - done.
  - vm_compute in Hout. injection Hout as <-. revert Hsuf. compute_done.
Qed.

(** A last line ["// lib"] without line feed is no marker at all. *)
Lemma lib_unterminated_marker_line :
  lib (py "E") (py "x" ++ nl ++ py "// lib") = Raise IndexError.
Proof. reflexivity. Qed.

(** C8, amended: when the string ["// lib\n"] occurs at exactly one
    offset [i] of the library text, wherever in a line, the new library
    text is the decorated example, the header and the text that followed
    that occurrence, so it ends with that text unchanged. *)
Theorem lib_single_marker example text i :
  hit [marker] text i → (∀ j, hit [marker] text j → j = i) →
  ∃ out, lib example text = Ok out ∧
    drop (i + length marker) text `suffix_of` out ∧
    out = decorate example (py "//!") ++ lib_header ++ drop (i + length marker) text.
Proof.
  intros (w & ->%list_elem_of_singleton & [tail Htail]) Huniq.
  assert (text = take i text ++ marker ++ tail) as Htext
    by (by rewrite <-Htail, take_drop).
  assert (drop (i + length marker) text = tail) as ->
    by (by rewrite <-drop_drop, Htail, drop_app_length).
  assert (i ≤ length text) as Hi.
  { apply (f_equal length) in Htail. rewrite length_drop, length_app in Htail.
    simpl in Htail. lia. }
  eexists. split_and!; [|by do 2 apply suffix_app_r|done].
  apply (lib_parts _ _ (take i text) tail []).
  rewrite Htext at 1. rewrite str_split_marker_cut.
  - f_equal. apply split_on_absent; [apply marker_nonempty|].
    intros j Hj. assert (i + length marker + j = i); [|simpl in *; lia].
    apply Huniq. rewrite Htext, (assoc_L (++)).
    replace (i + length marker + j) with (length (take i text ++ marker) + j).
    { by apply hit_app_r. }
    rewrite length_app, length_take. lia.
  - intros j Hj Hhit. rewrite <-Htext in Hhit. apply Huniq in Hhit.
    rewrite length_take in Hj. lia.
Qed.

Lemma hit_drop p s k j : k ≤ j → hit p s j ↔ hit p (drop k s) (j - k).
Proof.
  intros Hk. unfold hit. rewrite drop_drop.
  by replace (k + (j - k)) with j by lia.
Qed.

Lemma hit_unique_by_search p s i n :
  search p s = Some (i, n) → search p (drop (S i) s) = None →
  ∀ j, hit p s j → j = i.
Proof.
  intros [_ Hlt]%search_Some Hrest%absent_by_search j Hhit.
  destruct (decide (j < i)) as [Hj|Hj].
  { apply Hlt in Hj. by apply match_here_no_hit in Hj. }
  destruct (decide (j = i)) as [|Hne]; [done|].
  destruct (Hrest (j - S i)). apply hit_drop; [lia | done].
Qed.

Lemma lib_single_marker_witness :
  ∃ out,
    lib (py "fn main() {}" ++ nl)
        (py "old header" ++ nl ++ marker ++ py "fn keep() {}" ++ nl) = Ok out ∧
    py "fn keep() {}" ++ nl `suffix_of` out ∧
    out = decorate (py "fn main() {}" ++ nl) (py "//!") ++ lib_header ++
          py "fn keep() {}" ++ nl.
Proof.
  apply (lib_single_marker (py "fn main() {}" ++ nl)
           (py "old header" ++ nl ++ marker ++ py "fn keep() {}" ++ nl) 11).
  - by apply (hit_by_match _ _ _ 7).
  - by apply (hit_unique_by_search _ _ _ 7).
Defined.

(** C1, as the spec has it, fails: with the marker at offsets 1 and 9
    of ["a// lib\nb// lib\nc"], the tail kept is ["b"], not
    ["b// lib\nc"]. *)
Lemma lib_keeps_later_markers_refuted :
  ¬ (∀ example text i,
       hit [marker] text i → (∀ j, j < i → ¬ hit [marker] text j) →
       (∃ j, i < j ∧ hit [marker] text j) →
       lib example text =
         Ok (decorate example (py "//!") ++ lib_header ++
             drop (i + length marker) text)).
Proof.
  intros H.
  specialize (H (py "E") (py "a" ++ marker ++ py "b" ++ marker ++ py "c") 1).
  discriminate H.
  - by apply (hit_by_match _ _ _ 7).
  - intros j Hj. apply match_here_no_hit. by replace j with 0 by lia.
  - exists 9. split; [lia|]. by apply (hit_by_match _ _ _ 7).
Qed.

(** C1, amended: [parts[1]] is the text between the first and the second
    occurrence of the marker; the second marker and all that follows it
    are not part of the new library text. *)
Theorem lib_two_markers example before between rest :
  clear [marker] before (marker ++ between ++ marker ++ rest) →
  clear [marker] between (marker ++ rest) →
  lib example (before ++ marker ++ between ++ marker ++ rest) =
    Ok (decorate example (py "//!") ++ lib_header ++ between).
Proof.
  intros H1 H2. eapply lib_parts.
  rewrite str_split_marker_cut by done. f_equal.
  by apply str_split_marker_cut.
Qed.

Lemma lib_two_markers_witness :
  lib (py "E") (py "a" ++ marker ++ py "b" ++ marker ++ py "c") =
    Ok (decorate (py "E") (py "//!") ++ lib_header ++ py "b").
Proof.
  apply (lib_two_markers (py "E") (py "a") (py "b") (py "c")).
  - by apply (clear_by_search _ _ _ 1 7).
  - by apply (clear_by_search _ _ _ 1 7).
Defined.

(** ** The anchors *)

Lemma anchors_head w : w ∈ anchors → head w = Some "#"%char.
Proof. by intros [->| ->%list_elem_of_singleton]%elem_of_cons. Qed.

Lemma anchors_tail c w :
  c ∈ [ "#"%char; "`"%char ] → w ∈ anchors → c ∉ tail w.
Proof.
  intros [->| ->%list_elem_of_singleton]%elem_of_cons
         [->| ->%list_elem_of_singleton]%elem_of_cons; compute_done.
Qed.

Lemma marker_head w : w ∈ [marker] → head w = Some "/"%char.
Proof. by intros ->%list_elem_of_singleton. Qed.

Lemma marker_last w : w ∈ [marker] → ∃ u, w = u ++ [LF] ∧ LF ∉ u.
Proof.
  intros ->%list_elem_of_singleton. exists (py "// lib"). split; [done|].
  compute_done.
Qed.

(** Two matches of a pattern whose words all begin with a character that
    they do not contain again cannot overlap. *)
Lemma hit_no_overlap p s i n j h :
  (∀ w, w ∈ p → head w = Some h) → (∀ w, w ∈ p → h ∉ tail w) →
  match_here p (drop i s) = Some n → hit p s j → i < j → i + n ≤ j.
Proof.
  intros Hhead Htail (w0 & Hw0 & <- & Hpre0)%match_here_Some (w1 & Hw1 & Hpre1) Hij.
  destruct (decide (i + length w0 ≤ j)) as [|Hover]; [done|].
  destruct (Htail w0 Hw0).
  assert (s !! j = Some h) as Hj.
  { specialize (Hhead w1 Hw1). destruct w1 as [|x w1]; simplify_eq/=.
    replace j with (j + 0) by lia. rewrite <-lookup_drop.
    by apply (prefix_lookup_Some (h :: w1)). }
  assert (w0 !! (j - i) = Some h) as Hlook.
  { rewrite (prefix_lookup_lt w0 (drop i s)) by (done || lia).
    rewrite lookup_drop. by replace (i + (j - i)) with j by lia. }
  destruct w0 as [|x w0]; [done|]. simpl.
  replace (j - i) with (S (j - i - 1)) in Hlook by lia.
  by eapply list_elem_of_lookup_2.
Qed.

(** ** The readme splice *)

Lemma readme_parts example text x y z tl :
  re_split anchors text = x :: y :: z :: tl →
  readme example text = Ok (x ++ fence_open ++ example ++ fence_close ++ z).
Proof. unfold readme. intros ->. simpl. by rewrite <-!(assoc_L (++)). Qed.

Lemma readme_short example text :
  length (re_split anchors text) ≤ 2 → readme example text = Raise IndexError.
Proof.
  unfold readme. pose proof (split_on_nonempty anchors text) as Hne.
  unfold re_split. destruct (split_on anchors text) as [|x l]; [done|].
  intros Hlen. simpl. by rewrite getitem_Raise.
Qed.

Lemma re_split_two_cuts head a1 body a2 rest :
  a1 ∈ anchors → a2 ∈ anchors →
  clear anchors head (a1 ++ body ++ a2 ++ rest) →
  clear anchors body (a2 ++ rest) →
  re_split anchors (head ++ a1 ++ body ++ a2 ++ rest) =
    head :: body :: re_split anchors rest.
Proof.
  intros Ha1 Ha2 H1 H2. unfold re_split.
  rewrite split_on_cut by auto using anchors_nonempty, match_here_anchor.
  f_equal. apply split_on_cut; auto using anchors_nonempty, match_here_anchor.
Qed.

Lemma readme_two_cuts example head a1 body a2 rest tail :
  a1 ∈ anchors → a2 ∈ anchors →
  clear anchors head (a1 ++ body ++ a2 ++ rest) →
  clear anchors body (a2 ++ rest) →
  up_to_match anchors tail rest →
  readme example (head ++ a1 ++ body ++ a2 ++ rest) =
    Ok (head ++ fence_open ++ example ++ fence_close ++ tail).
Proof.
  intros Ha1 Ha2 H1 H2 [tl Htl]%split_on_head; [|apply anchors_nonempty].
  eapply readme_parts. rewrite re_split_two_cuts by done.
  unfold re_split. by rewrite Htl.
Qed.

(** C4, as the spec has it, fails: in ["A# Usage\nB# Logging\nC# Usage\nD"]
    the pattern matches three times, and segment 2 is ["C"], not
    ["C# Usage\nD"]. *)
Lemma readme_keeps_all_after_second_match_refuted :
  ¬ (∀ example head a1 body a2 rest,
       a1 ∈ anchors → a2 ∈ anchors →
       clear anchors head (a1 ++ body ++ a2 ++ rest) →
       clear anchors body (a2 ++ rest) →
       readme example (head ++ a1 ++ body ++ a2 ++ rest) =
         Ok (head ++ fence_open ++ example ++ fence_close ++ rest)).
Proof.
  intros H.
  specialize (H (py "E") (py "A") usage (py "B") logging
                (py "C" ++ usage ++ py "D")).
  discriminate H.
  - by left.
  - by right; left.
  - by apply (clear_by_search _ _ _ 1 8).
  - by apply (clear_by_search _ _ _ 1 10).
Qed.

(** C4, amended: when the pattern matches at least twice, the new readme
    is segment 0, the opening fence, the example, the closing fence and
    segment 2, where segment 2 is the text behind the second match up to
    the third match, or up to the end when there is no third. *)
Theorem readme_two_matches example head a1 body a2 rest tail :
  a1 ∈ anchors → a2 ∈ anchors →
  clear anchors head (a1 ++ body ++ a2 ++ rest) →
  clear anchors body (a2 ++ rest) →
  up_to_match anchors tail rest →
  readme example (head ++ a1 ++ body ++ a2 ++ rest) =
    Ok (head ++ (usage ++ nl ++ py "```rust" ++ nl) ++ example ++
        (py "```" ++ nl ++ nl ++ logging) ++ tail).
Proof. apply readme_two_cuts. Qed.

Lemma readme_two_matches_witness :
  readme (py "E") (py "A" ++ usage ++ py "B" ++ logging ++ py "C" ++ usage ++ py "D") =
    Ok (py "A" ++ (usage ++ nl ++ py "```rust" ++ nl) ++ py "E" ++
        (py "```" ++ nl ++ nl ++ logging) ++ py "C").
Proof.
  apply (readme_two_matches (py "E") (py "A") usage (py "B") logging
           (py "C" ++ usage ++ py "D") (py "C")).
  - by left.
  - by right; left.
  - by apply (clear_by_search _ _ _ 1 8).
  - by apply (clear_by_search _ _ _ 1 10).
  - right. exists usage, (py "D"). split_and!; [by left | done |].
    by apply (clear_by_search _ _ _ 1 8).
Defined.

(** C10: the anchors are found as substrings.  A marker whose first
    occurrence has text in front of it on its line is where the library
    text is cut, and the splice succeeds; the readme is cut at the first
    two places where ["# Usage\n"] or ["# Logging\n"] occurs, whatever
    surrounds them. *)
Theorem anchors_are_substrings :
  (∀ example before c rest,
     last before = Some c → c ≠ LF →
     clear [marker] before (marker ++ rest) →
     str_split (before ++ marker ++ rest) marker =
       before :: str_split rest marker ∧
     ∃ tail, up_to_match [marker] tail rest ∧
       lib example (before ++ marker ++ rest) =
         Ok (decorate example (py "//!") ++ lib_header ++ tail)) ∧
  (∀ example head a1 body a2 rest,
     a1 = usage ∨ a1 = logging → a2 = usage ∨ a2 = logging →
     clear [usage; logging] head (a1 ++ body ++ a2 ++ rest) →
     clear [usage; logging] body (a2 ++ rest) →
     re_split anchors (head ++ a1 ++ body ++ a2 ++ rest) =
       head :: body :: re_split anchors rest ∧
     ∃ tail, up_to_match [usage; logging] tail rest ∧
       readme example (head ++ a1 ++ body ++ a2 ++ rest) =
         Ok (head ++ fence_open ++ example ++ fence_close ++ tail)).
Proof.
  split.
  - intros example before c rest _ _ Hfirst.
    pose proof (str_split_marker_cut _ _ Hfirst) as Hcut. split; [done|].
    destruct (up_to_match_exists [marker] rest) as [tail Htail].
    exists tail. split; [done|].
    destruct (split_on_head _ _ _ marker_nonempty Htail) as [tl Htl].
    eapply lib_parts. rewrite Hcut. unfold str_split. by rewrite Htl.
  - intros example head a1 body a2 rest Ha1 Ha2 H1 H2.
    assert (a1 ∈ anchors) by (unfold anchors; rewrite !elem_of_cons; tauto).
    assert (a2 ∈ anchors) by (unfold anchors; rewrite !elem_of_cons; tauto).
    split; [by apply re_split_two_cuts|].
    destruct (up_to_match_exists anchors rest) as [tail Htail].
    exists tail. split; [done|]. by apply readme_two_cuts.
Qed.

Lemma anchors_are_substrings_witness :
  (str_split (py "let x = 1; " ++ marker ++ py "fn keep() {}") marker =
     py "let x = 1; " :: str_split (py "fn keep() {}") marker ∧
   ∃ tail, up_to_match [marker] tail (py "fn keep() {}") ∧
     lib (py "E") (py "let x = 1; " ++ marker ++ py "fn keep() {}") =
       Ok (decorate (py "E") (py "//!") ++ lib_header ++ tail)) ∧
  (re_split anchors (py "see " ++ usage ++ py "old, " ++ logging ++ py "end") =
     py "see " :: py "old, " :: re_split anchors (py "end") ∧
   ∃ tail, up_to_match [usage; logging] tail (py "end") ∧
     readme (py "E") (py "see " ++ usage ++ py "old, " ++ logging ++ py "end") =
       Ok (py "see " ++ fence_open ++ py "E" ++ fence_close ++ tail)).
Proof.
  split.
  - apply (proj1 anchors_are_substrings (py "E") (py "let x = 1; ") " "%char
             (py "fn keep() {}")).
    + reflexivity.
    + discriminate.
    + by apply (clear_by_search _ _ _ 11 7).
  - apply (proj2 anchors_are_substrings (py "E") (py "see ") usage (py "old, ")
             logging (py "end")).
    + by left.
    + by right.
    + by apply (clear_by_search _ _ _ 4 8).
    + by apply (clear_by_search _ _ _ 5 10).
Defined.

(** C2, as the spec has it, fails: ["# Logging\n# Usage\n"] has both
    anchors, every [# Logging] before every [# Usage], and the splice
    succeeds. *)
Lemma readme_reversed_anchors_refuted :
  ¬ (∀ example text,
       absent [usage] text ∨ absent [logging] text ∨
       ((∃ i, hit [logging] text i) ∧ (∃ j, hit [usage] text j) ∧
        ∀ i j, hit [logging] text i → hit [usage] text j → i < j) →
       readme example text = Raise IndexError).
Proof.
  intros H. specialize (H (py "E") (logging ++ usage)).
  discriminate H. right; right. split_and!.
  - exists 0. by apply (hit_by_match _ _ _ 10).
  - exists 10. by apply (hit_by_match _ _ _ 8).
  - intros i j Hi Hj.
    apply (hit_unique_by_search _ _ 0 10) in Hi; [|done..].
    apply (hit_unique_by_search _ _ 10 8) in Hj; [|done..]. lia.
Qed.

(** A text without [# Usage] in which [# Logging] occurs twice is
    spliced as well. *)
Lemma readme_twice_logging :
  absent [usage] (logging ++ logging) ∧
  readme (py "E") (logging ++ logging) =
    Ok (fence_open ++ py "E" ++ fence_close).
Proof. split; [by apply absent_by_search | done]. Qed.

(** C2, amended: the readme splice raises [IndexError] (the spec's
    MissingAnchorError) exactly when the anchors, of either kind, occur
    at fewer than two places in the text; which anchors they are, and in
    which order, plays no part. *)
Theorem readme_raises_iff example text :
  readme example text = Raise IndexError ↔
  ∀ i j, hit anchors text i → hit anchors text j → i = j.
Proof.
  pose proof anchors_nonempty as Hne. split.
  - intros Hraise.
    assert (∀ i j, hit anchors text i → hit anchors text j → ¬ i < j) as Hlt.
    { intros i j Hi Hj Hij.
      destruct (hit_search _ _ _ Hi) as (i0 & n0 & E0 & Hi0).
      pose proof (search_bounds _ _ _ _ Hne E0) as [? ?].
      pose proof E0 as [Hm0 _]%search_Some.
      assert (i0 + n0 ≤ j) as Hj0.
      { eapply hit_no_overlap; [apply anchors_head | | done | done | lia].
        intros w. apply anchors_tail. by left. }
      apply (hit_drop _ _ (i0 + n0)) in Hj; [|done].
      destruct (hit_search _ _ _ Hj) as (i1 & n1 & E1 & _).
      pose proof (split_on_nonempty anchors
                    (drop (i1 + n1) (drop (i0 + n0) text))) as Hz.
      destruct (split_on anchors (drop (i1 + n1) (drop (i0 + n0) text)))
        as [|z tl] eqn:Ez; [done|].
      rewrite (readme_parts example text (take i0 text)
                 (take i1 (drop (i0 + n0) text)) z tl) in Hraise; [done|].
      unfold re_split. rewrite split_on_unfold, E0 by done. f_equal.
      by rewrite split_on_unfold, E1, Ez. }
    intros i j Hi Hj. destruct (Nat.lt_trichotomy i j) as [?|[?|?]]; [|done|].
    + by destruct (Hlt i j).
    + by destruct (Hlt j i).
  - intros Huniq. apply readme_short. unfold re_split.
    rewrite split_on_unfold by done.
    destruct (search anchors text) as [[i n]|] eqn:E; [|simpl; lia].
    pose proof (search_bounds _ _ _ _ Hne E) as [? ?].
    apply search_Some in E as [Hm _].
    rewrite (split_on_absent _ Hne (drop (i + n) text)); [simpl; lia|].
    intros k Hk. assert (i + n + k = i); [|lia].
    apply Huniq; [|by eapply hit_by_match].
    apply (hit_drop _ _ (i + n)); [lia|].
    by replace (i + n + k - (i + n)) with k by lia.
Qed.

Lemma readme_raises_iff_witness :
  readme (py "fn main() {}") (py "Intro" ++ nl ++ usage ++ py "no log section")
  = Raise IndexError.
Proof.
  apply (proj2 (readme_raises_iff (py "fn main() {}")
                  (py "Intro" ++ nl ++ usage ++ py "no log section"))).
  intros i j Hi Hj.
  apply (hit_unique_by_search _ _ 6 8) in Hi; [|done..].
  apply (hit_unique_by_search _ _ 6 8) in Hj; [|done..]. congruence.
Defined.

(** ** A whole run *)

Lemma gen_Ok fs example old_lib new_lib old_readme new_readme :
  fs !! "src/example.rs" = Some example →
  fs !! "src/lib.rs" = Some old_lib →
  fs !! "ReadMe.md" = Some old_readme →
  lib example old_lib = Ok new_lib →
  readme example old_readme = Ok new_readme →
  gen fs = (Ok tt, <["ReadMe.md" := new_readme]> (<["src/lib.rs" := new_lib]> fs)).
Proof.
  intros He Hl Hr Hlib Hreadme.
  unfold gen, mbind, read_file, write_file, lift.
  rewrite He, Hl, Hlib, lookup_insert_ne, Hr, Hreadme; done.
Qed.

(** What a successful run read and wrote. *)
Lemma gen_Ok_inv fs fs' :
  gen fs = (Ok tt, fs') →
  ∃ example old_lib new_lib old_readme new_readme,
    fs !! "src/example.rs" = Some example ∧
    fs !! "src/lib.rs" = Some old_lib ∧
    fs !! "ReadMe.md" = Some old_readme ∧
    lib example old_lib = Ok new_lib ∧
    readme example old_readme = Ok new_readme ∧
    fs' = <["ReadMe.md" := new_readme]> (<["src/lib.rs" := new_lib]> fs).
Proof.
  unfold gen, mbind, read_file, write_file, lift.
  destruct (fs !! "src/example.rs") as [example|] eqn:He; [|done].
  destruct (fs !! "src/lib.rs") as [old_lib|] eqn:Hl; [|done].
  destruct (lib example old_lib) as [new_lib|] eqn:Hlib; [|done].
  rewrite lookup_insert_ne by done.
  destruct (fs !! "ReadMe.md") as [old_readme|] eqn:Hr; [|done].
  destruct (readme example old_readme) as [new_readme|] eqn:Hreadme; [|done].
  intros [= <-]. by exists example, old_lib, new_lib, old_readme, new_readme.
Qed.

(** C3: the end-to-end scenario.  With ["fn main() {}\n"] for the
    example, one run writes the library text
    ["//!fn main() {}\n//!\n\n// lib\nfn keep() {}\n"] and the readme
    ["Intro\n# Usage\n\n```rust\nfn main() {}\n```\n\n# Logging\nLog info"]. *)
Theorem end_to_end fs :
  fs !! "src/example.rs" = Some (py "fn main() {}" ++ nl) →
  fs !! "src/lib.rs" =
    Some (py "old header" ++ nl ++ py "// lib" ++ nl ++ py "fn keep() {}" ++ nl) →
  fs !! "ReadMe.md" =
    Some (py "Intro" ++ nl ++ py "# Usage" ++ nl ++ py "old usage" ++ nl ++
          py "# Logging" ++ nl ++ py "Log info") →
  ∃ fs', gen fs = (Ok tt, fs') ∧
    fs' !! "src/lib.rs" =
      Some (py "//!fn main() {}" ++ nl ++ py "//!" ++ nl ++ nl ++
            py "// lib" ++ nl ++ py "fn keep() {}" ++ nl) ∧
    fs' !! "ReadMe.md" =
      Some (py "Intro" ++ nl ++ py "# Usage" ++ nl ++ nl ++ py "```rust" ++ nl ++
            py "fn main() {}" ++ nl ++ py "```" ++ nl ++ nl ++
            py "# Logging" ++ nl ++ py "Log info") ∧
    ∀ path, path ≠ "src/lib.rs" → path ≠ "ReadMe.md" → fs' !! path = fs !! path.
Proof.
  intros He Hl Hr. eexists. split_and!.
  - eapply gen_Ok; [done..| |]; reflexivity.
  - rewrite lookup_insert_ne, lookup_insert_eq by done. reflexivity.
  - rewrite lookup_insert_eq. reflexivity.
  - intros path ??. by rewrite !lookup_insert_ne.
Qed.

Lemma end_to_end_witness :
  ∃ fs', gen scenario = (Ok tt, fs') ∧
    fs' !! "src/lib.rs" =
      Some (py "//!fn main() {}" ++ nl ++ py "//!" ++ nl ++ nl ++
            py "// lib" ++ nl ++ py "fn keep() {}" ++ nl) ∧
    fs' !! "ReadMe.md" =
      Some (py "Intro" ++ nl ++ py "# Usage" ++ nl ++ nl ++ py "```rust" ++ nl ++
            py "fn main() {}" ++ nl ++ py "```" ++ nl ++ nl ++
            py "# Logging" ++ nl ++ py "Log info") ∧
    ∀ path, path ≠ "src/lib.rs" → path ≠ "ReadMe.md" →
            fs' !! path = scenario !! path.
Proof. apply (end_to_end scenario); reflexivity. Defined.

(** ** Lines, [join] and [decorate] *)

Lemma join_cons sep x l : l ≠ [] → join sep (x :: l) = x ++ sep ++ join sep l.
Proof. by destruct l. Qed.

Lemma join_snoc sep l x : l ≠ [] → join sep (l ++ [x]) = join sep l ++ sep ++ x.
Proof.
  induction l as [|y l IH]; [done|]. intros _. destruct l as [|z l]; [done|].
  change ((y :: z :: l) ++ [x]) with (y :: ((z :: l) ++ [x])).
  rewrite !join_cons, IH by done. by rewrite <-!(assoc_L (++)).
Qed.

Lemma nl_head w : w ∈ [nl] → head w = Some LF.
Proof. by intros ->%list_elem_of_singleton. Qed.

Lemma LF_absent (l : str) : LF ∉ l → absent [nl] l.
Proof.
  intros Hl. apply (clear_absent _ _ []); [apply nl_nonempty|].
  by apply (clear_region _ _ _ LF); [apply nl_head|].
Qed.

Lemma absent_LF (l : str) : absent [nl] l → LF ∉ l.
Proof.
  intros Ha [i Hi]%list_elem_of_lookup_1. apply (Ha i). exists nl.
  split; [by left|]. rewrite (drop_S _ _ _ Hi). by apply prefix_cons, prefix_nil.
Qed.

(** Splitting the joined lines gives the lines back. *)
Lemma split_join T ls : lines T ls → str_split T nl = ls.
Proof.
  intros (Hne & Hls & ->). induction Hls as [|x l Hx Hl IH]; [done|].
  destruct l as [|y l].
  - by apply split_on_absent; [apply nl_nonempty | apply LF_absent].
  - rewrite join_cons by done. unfold str_split in *.
    rewrite split_on_cut; [by rewrite IH | apply nl_nonempty | | done].
    by apply (clear_region _ _ _ LF); [apply nl_head|].
Qed.

(** Joining the segments with the separator gives the text back. *)
Lemma join_split sep s : sep ≠ [] → join sep (split_on [sep] s) = s.
Proof.
  intros Hsep.
  assert ([] ∉ [sep]) as Hne by (by intros ?%list_elem_of_singleton).
  remember (length s) as k eqn:Hk. revert s Hk.
  induction k as [k IH] using lt_wf_ind; intros s ->.
  rewrite split_on_unfold by done.
  destruct (search [sep] s) as [[i n]|] eqn:E; [|done].
  pose proof (search_bounds _ _ _ _ Hne E) as [? ?].
  apply search_Some in E as [(w & ->%list_elem_of_singleton & <- & [k Hk])%match_here_Some _].
  rewrite join_cons by apply split_on_nonempty.
  rewrite (IH (length (drop (i + length sep) s))); [|rewrite length_drop; lia|done].
  rewrite <-drop_drop, Hk, drop_app_length, <-Hk. apply take_drop.
Qed.

(** Every text has its lines, and [str.split] computes them. *)
Lemma lines_split T : lines T (str_split T nl).
Proof.
  split_and!.
  - apply split_on_nonempty.
  - eapply Forall_impl; [apply split_on_segments_absent, nl_nonempty|].
    intros l. apply absent_LF.
  - symmetry. by apply join_split.
Qed.

Lemma lines_snoc T ls : lines T ls → lines (T ++ nl) (ls ++ [[]]).
Proof.
  intros (Hne & Hls & ->). split_and!.
  - by destruct ls.
  - apply Forall_app. split; [done|]. constructor; [|done]. by intros ?%elem_of_nil.
  - rewrite join_snoc by done. by rewrite (right_id_L [] (++)).
Qed.

Lemma lines_decorated P T ls :
  LF ∉ P → lines T ls →
  lines (join nl (map (λ l, P ++ l) ls)) (map (λ l, P ++ l) ls).
Proof.
  intros HP (Hne & Hls & _). split_and!; [by destruct ls | | done].
  apply Forall_map. eapply Forall_impl; [done|]. simpl.
  intros l Hl [?|?]%elem_of_app; done.
Qed.

Lemma decorate_join T P ls :
  lines T ls → decorate T P = join nl (map (λ l, P ++ l) ls).
Proof. intros Hlines. unfold decorate. by rewrite (split_join _ _ Hlines). Qed.

(** C5: [decorate(T, P)] is the lines of [T], each with [P] in front,
    joined by line feeds again: as many lines as [T] has; and when [T]
    ends with a line feed, the last line of the result is [P] alone. *)
Theorem decorate_lines T P ls :
  lines T ls →
  decorate T P = join nl (map (λ l, P ++ l) ls) ∧
  length (map (λ l, P ++ l) ls) = length ls ∧
  ∀ T', T = T' ++ nl →
    last ls = Some [] ∧
    last (map (λ l, P ++ l) ls) = Some P ∧
    decorate T P = decorate T' P ++ nl ++ P.
Proof.
  intros Hlines. pose proof (split_join _ _ Hlines) as Hsplit.
  split_and!.
  - by apply decorate_join.
  - apply length_map.
  - intros T' ->.
    pose proof (split_join _ _ (lines_snoc _ _ (lines_split T'))) as Hsplit'.
    rewrite Hsplit in Hsplit'. clear Hsplit Hlines. subst ls. split_and!.
    + apply last_snoc.
    + rewrite map_app. simpl. by rewrite last_snoc, (right_id_L [] (++)).
    + unfold decorate at 1.
      rewrite (split_join _ _ (lines_snoc _ _ (lines_split T'))), map_app. simpl.
      rewrite join_snoc, (right_id_L [] (++)); [done|].
      pose proof (split_on_nonempty [nl] T'). unfold str_split.
      by destruct (split_on [nl] T').
Qed.

Lemma decorate_lines_witness :
  decorate (py "fn main() {}" ++ nl) (py "//!") =
    join nl (map (λ l, py "//!" ++ l) [py "fn main() {}"; []]) ∧
  length (map (λ l, py "//!" ++ l) [py "fn main() {}"; []]) = 2 ∧
  ∀ T', py "fn main() {}" ++ nl = T' ++ nl →
    last [py "fn main() {}"; []] = Some [] ∧
    last (map (λ l, py "//!" ++ l) [py "fn main() {}"; []]) = Some (py "//!") ∧
    decorate (py "fn main() {}" ++ nl) (py "//!") =
      decorate T' (py "//!") ++ nl ++ py "//!".
Proof.
  apply (decorate_lines (py "fn main() {}" ++ nl) (py "//!")
           [py "fn main() {}"; []]).
  split_and!; [done | | done].
  repeat constructor; compute_done.
Defined.

(** C6, as the spec has it, fails: decorating ["x"] with ["a"] and then
    with ["b"] gives ["bax"]; the line is prefixed with [P2 + P1], not
    with [P1 + P2]. *)
Lemma decorate_twice_P1_P2_refuted :
  ¬ (∀ T P1 P2 ls,
       lines T ls →
       decorate (decorate T P1) P2 = join nl (map (λ l, (P1 ++ P2) ++ l) ls)).
Proof.
  intros H. specialize (H (py "x") (py "a") (py "b") [py "x"]).
  discriminate H. split_and!; [done | | done].
  repeat constructor; compute_done.
Qed.

(** A first prefix with a line feed in it adds lines, and the second
    prefix goes in front of each of them. *)
Lemma decorate_twice_with_line_feed :
  decorate (decorate (py "x") nl) (py "b") = py "b" ++ nl ++ py "bx".
Proof. reflexivity. Qed.

(** C6, amended: decorating with [P1], which holds no line feed, and
    then with [P2] puts [P2 + P1] in front of every line of the text. *)
Theorem decorate_twice T P1 P2 ls :
  LF ∉ P1 → lines T ls →
  decorate (decorate T P1) P2 = join nl (map (λ l, (P2 ++ P1) ++ l) ls) ∧
  decorate (decorate T P1) P2 = decorate T (P2 ++ P1).
Proof.
  intros HP1 Hlines.
  assert (decorate (decorate T P1) P2 = join nl (map (λ l, (P2 ++ P1) ++ l) ls))
    as Hgoal; [|by rewrite (decorate_join T (P2 ++ P1) ls)].
  rewrite (decorate_join T P1 ls) by done.
  rewrite (decorate_join _ P2 _ (lines_decorated P1 T ls HP1 Hlines)).
  rewrite map_map. f_equal. apply map_ext. intros l. by rewrite (assoc_L (++)).
Qed.

Lemma decorate_twice_witness :
  decorate (decorate (py "x" ++ nl ++ py "y") (py "a")) (py "b") =
    join nl (map (λ l, (py "b" ++ py "a") ++ l) [py "x"; py "y"]) ∧
  decorate (decorate (py "x" ++ nl ++ py "y") (py "a")) (py "b") =
    decorate (py "x" ++ nl ++ py "y") (py "b" ++ py "a").
Proof.
  apply (decorate_twice (py "x" ++ nl ++ py "y") (py "a") (py "b")
           [py "x"; py "y"]).
  - compute_done.
  - split_and!; [done | | done]. repeat constructor; compute_done.
Defined.

(** ** Lines that end with a word

    A word [u ++ "\n"], [u] without line feed, occurs in a text exactly
    where one of its lines ends with [u]. *)

Lemma join_nl_concat ls :
  ls ≠ [] → join nl ls ++ nl = concat ((λ l, l ++ nl) <$> ls).
Proof.
  induction ls as [|x ls IH]; [done|]. intros _. destruct ls as [|y ls].
  - simpl. by rewrite (right_id_L [] (++)).
  - rewrite join_cons by done. rewrite fmap_cons, concat_cons, <-IH by done.
    by rewrite <-!(assoc_L (++)).
Qed.

Lemma prefix_up_to_LF (u d rest : str) :
  LF ∉ u → LF ∉ d → u ++ [LF] `prefix_of` d ++ LF :: rest → u = d.
Proof.
  intros Hu Hd Hpre.
  assert (length u = length d) as Hlen.
  { destruct (Nat.lt_trichotomy (length u) (length d)) as [Hlt|[?|Hlt]]; [|done|].
    - destruct Hd. apply (list_elem_of_lookup_2 _ (length u)).
      rewrite <-(lookup_app_l d (LF :: rest)) by done.
      rewrite <-(prefix_lookup_lt (u ++ [LF]) _ _) by
        (done || rewrite length_app; simpl; lia).
      by apply list_lookup_middle.
    - destruct Hu. apply (list_elem_of_lookup_2 _ (length d)).
      rewrite <-(lookup_app_l u [LF]) by done.
      rewrite (prefix_lookup_lt (u ++ [LF]) (d ++ LF :: rest)) by
        (done || rewrite length_app; simpl; lia).
      by apply list_lookup_middle. }
  apply prefix_app_l in Hpre. destruct Hpre as [k Hk].
  apply (f_equal (take (length u))) in Hk.
  rewrite take_app_length in Hk. rewrite Hlen, take_app_length in Hk. done.
Qed.

Lemma hit_line_end u ls j :
  LF ∉ u → Forall (λ l, LF ∉ l) ls →
  hit [u ++ [LF]] (concat ((λ l, l ++ nl) <$> ls)) j →
  ∃ l, l ∈ ls ∧ u `suffix_of` l.
Proof.
  intros Hu Hls. revert j. induction Hls as [|x ls Hx Hls IH]; intros j Hhit.
  { apply hit_lt_length in Hhit; [simpl in Hhit; lia|].
    intros ?%list_elem_of_singleton. by destruct u. }
  rewrite fmap_cons, concat_cons in Hhit.
  destruct (decide (j ≤ length x)) as [Hj|Hj].
  - exists x. split; [by left|].
    destruct Hhit as (w & ->%list_elem_of_singleton & Hpre).
    rewrite <-(assoc_L (++)), drop_app_le in Hpre by done.
    apply prefix_up_to_LF in Hpre as ->; [apply suffix_drop | done |].
    intros ?%(subseteq_drop j x). done.
  - replace j with (length (x ++ nl) + (j - length (x ++ nl))) in Hhit
      by (rewrite length_app; simpl; lia).
    apply hit_app_r, IH in Hhit as (l & ? & ?). exists l. split; [by right | done].
Qed.

Lemma line_end_hit u ls l :
  l ∈ ls → u `suffix_of` l →
  ∃ j, hit [u ++ [LF]] (concat ((λ l, l ++ nl) <$> ls)) j.
Proof.
  intros Hl [k ->]. induction ls as [|x ls IH]; [by apply elem_of_nil in Hl|].
  rewrite fmap_cons, concat_cons. apply elem_of_cons in Hl as [<-|Hl].
  - exists (length k). apply hit_app_l. exists (u ++ [LF]).
    split; [by left|]. by rewrite <-(assoc_L (++)), drop_app_length.
  - destruct (IH Hl) as [j Hj]. exists (length (x ++ nl) + j). by apply hit_app_r.
Qed.

(** ["// lib"] at the end of a doc comment line is at the end of the
    line it was made from. *)
Lemma suffix_doc_comment l :
  py "// lib" `suffix_of` py "//!" ++ l → py "// lib" `suffix_of` l.
Proof.
  intros [k Hk]. destruct k as [|c1 [|c2 [|c3 k]]]; simplify_eq/=.
  by exists k.
Qed.

(** If no line of the example ends with ["// lib"], none of its doc
    comment does. *)
Lemma decorate_marker_absent example :
  absent [marker] (example ++ nl) →
  absent [marker] (decorate example (py "//!") ++ nl).
Proof.
  intros Ha j Hhit. pose proof (lines_split example) as Hlines.
  pose proof Hlines as (Hne & Hls & Hjoin).
  rewrite (decorate_join _ _ _ Hlines) in Hhit.
  rewrite join_nl_concat in Hhit by (by destruct (str_split example nl)).
  change marker with (py "// lib" ++ [LF]) in Hhit.
  apply hit_line_end in Hhit as (l' & Hl' & Hsuf); [|compute_done|].
  - apply list_elem_of_fmap in Hl' as (l & -> & Hl).
    apply suffix_doc_comment in Hsuf.
    destruct (line_end_hit _ _ _ Hl Hsuf) as [j' Hj'].
    apply (Ha j'). rewrite Hjoin at 1. by rewrite join_nl_concat.
  - apply Forall_fmap. eapply Forall_impl; [done|]. simpl.
    intros l Hl. rewrite !elem_of_cons. by intros [?|[?|[?|?]]].
Qed.

(** ** Running the script on its own output *)

Lemma lib_Ok_inv example text out :
  lib example text = Ok out →
  ∃ tail, out = decorate example (py "//!") ++ lib_header ++ tail ∧
          absent [marker] tail.
Proof.
  unfold lib, getitem.
  destruct (str_split text marker !! 1) as [tail|] eqn:E; [|done].
  intros [= <-]. exists tail. split; [done|].
  pose proof (split_on_segments_absent _ marker_nonempty text) as Hall.
  rewrite Forall_lookup in Hall. by eapply Hall.
Qed.

Lemma readme_Ok_inv example text out :
  readme example text = Ok out →
  ∃ head tail,
    out = head ++ fence_open ++ example ++ fence_close ++ tail ∧
    absent anchors head ∧ absent anchors tail.
Proof.
  unfold readme, getitem.
  destruct (re_split anchors text !! 0) as [head|] eqn:E0; [|done]. simpl.
  destruct (re_split anchors text !! 2) as [tail|] eqn:E2; [|done].
  intros [= <-]. exists head, tail. rewrite <-!(assoc_L (++)).
  pose proof (split_on_segments_absent _ anchors_nonempty text) as Hall.
  rewrite Forall_lookup in Hall. split_and!; [done | by eapply Hall..].
Qed.

(** The new library text is cut at the marker that the splice wrote. *)
Lemma lib_fixpoint example tail :
  absent [marker] (example ++ nl) → absent [marker] tail →
  lib example (decorate example (py "//!") ++ lib_header ++ tail) =
    Ok (decorate example (py "//!") ++ lib_header ++ tail).
Proof.
  intros He Htail. set (doc := decorate example (py "//!")).
  apply (lib_parts _ _ (doc ++ nl ++ nl) tail []).
  replace (doc ++ lib_header ++ tail) with ((doc ++ nl ++ nl) ++ marker ++ tail)
    by (unfold lib_header; by rewrite <-!(assoc_L (++))).
  rewrite str_split_marker_cut.
  - f_equal. by apply split_on_absent; [apply marker_nonempty|].
  - apply clear_app.
    + intros j Hj Hhit.
      apply (hit_app_inv_last _ _ LF) in Hhit; [|apply marker_last|done].
      by apply (decorate_marker_absent example He j).
    + apply (clear_region _ _ _ "/"%char); [apply marker_head | compute_done].
Qed.

(** The new readme is cut at the two headings that the splice wrote. *)
Lemma readme_fixpoint example head tail :
  absent anchors example → absent anchors head → absent anchors tail →
  readme example (head ++ fence_open ++ example ++ fence_close ++ tail) =
    Ok (head ++ fence_open ++ example ++ fence_close ++ tail).
Proof.
  intros He Hhead Htail.
  set (body := (nl ++ py "```rust" ++ nl) ++ example ++ py "```" ++ nl ++ nl).
  replace (head ++ fence_open ++ example ++ fence_close ++ tail)
    with (head ++ usage ++ body ++ logging ++ tail) at 1
    by (unfold body, fence_open, fence_close; by rewrite <-!(assoc_L (++))).
  apply readme_two_cuts.
  - by left.
  - by right; left.
  - apply (absent_clear _ _ "#"%char); [|done].
    intros w. apply anchors_tail. by left.
  - unfold body. apply clear_app; [|apply clear_app].
    + apply (clear_region _ _ _ "#"%char); [apply anchors_head | compute_done].
    + rewrite <-(assoc_L (++)).
      apply (absent_clear _ _ "`"%char); [|done].
      intros w. apply anchors_tail. by right; left.
    + apply (clear_region _ _ _ "#"%char); [apply anchors_head | compute_done].
  - by left.
Qed.

(** C9, as the spec has it, fails: an example with a line that ends in
    ["// lib"] puts a marker into the doc comment, and the second run
    cuts the library text there. *)
Lemma gen_twice_refuted :
  ¬ (∀ fs fs1, gen fs = (Ok tt, fs1) → gen fs1 = (Ok tt, fs1)).
Proof.
  intros H.
  specialize (H marked_example (snd (gen marked_example)) eq_refl).
  apply (f_equal (λ r, snd r !! "src/lib.rs")) in H.
  vm_compute in H. discriminate H.
Qed.

(** C9, amended: when no line of the example ends with ["// lib"] and
    the example contains neither ["# Usage\n"] nor ["# Logging\n"], a
    second run on the files the first run left succeeds and leaves
    every file as it was. *)
Theorem gen_twice fs fs1 example :
  fs !! "src/example.rs" = Some example →
  absent [marker] (example ++ nl) →
  absent anchors example →
  gen fs = (Ok tt, fs1) →
  gen fs1 = (Ok tt, fs1).
Proof.
  intros He Hmarker Hanchors
    (example' & old_lib & new_lib & old_readme & new_readme &
     He' & Hl & Hr & Hlib & Hreadme & ->)%gen_Ok_inv.
  rewrite He in He'. injection He' as <-.
  apply lib_Ok_inv in Hlib as (tail & -> & Htail).
  apply readme_Ok_inv in Hreadme as (head & tail' & -> & Hhead & Htail').
  erewrite gen_Ok.
  - f_equal. rewrite (insert_id _ "src/lib.rs"), (insert_id _ "ReadMe.md"); [done|..].
    + apply lookup_insert_eq.
    + by rewrite lookup_insert_ne, lookup_insert_eq.
  - by rewrite !lookup_insert_ne.
  - by rewrite lookup_insert_ne, lookup_insert_eq.
  - apply lookup_insert_eq.
  - by apply lib_fixpoint.
  - by apply readme_fixpoint.
Qed.

Lemma gen_twice_witness :
  gen (snd (gen scenario)) = (Ok tt, snd (gen scenario)).
Proof.
  apply (gen_twice scenario (snd (gen scenario)) (py "fn main() {}" ++ nl)).
  - reflexivity.
  - by apply absent_by_search.
  - by apply absent_by_search.
  - reflexivity.
Defined.

(** * Further properties of the code *)

(** ** [decorate], character by character *)

Lemma join_cons_tail sep (l : list str) :
  ∃ J, ∀ y, join sep (y :: l) = y ++ J.
Proof.
  destruct l as [|z l].
  - exists []. intros y. simpl. by rewrite (right_id_L [] (++)).
  - by exists (sep ++ join sep (z :: l)).
Qed.

Lemma str_split_nl_LF T : str_split (LF :: T) nl = [] :: str_split T nl.
Proof.
  change (LF :: T) with ([] ++ nl ++ T).
  apply split_on_cut; [apply nl_nonempty | apply clear_nil | done].
Qed.

Lemma str_split_nl_other c T :
  c ≠ LF →
  ∃ x tl, str_split T nl = x :: tl ∧ str_split (c :: T) nl = (c :: x) :: tl.
Proof.
  intros Hc. pose proof (lines_split T) as (Hne & Hls & Hjoin).
  destruct (str_split T nl) as [|x tl] eqn:E; [done|].
  exists x, tl. split; [done|]. apply split_join. split_and!; [done | |].
  - apply Forall_cons in Hls as [Hx Htl]. constructor; [|done].
    by intros [?|?]%elem_of_cons.
  - destruct (join_cons_tail nl tl) as [J HJ]. rewrite Hjoin, !HJ. done.
Qed.

(** The text that [decorate] builds: the prefix, then the characters of
    the text with the prefix put behind every line feed. *)
Lemma decorate_flat_map T P :
  decorate T P = P ++ flat_map (λ c, if Ascii.eqb c LF then LF :: P else [c]) T.
Proof.
  induction T as [|c T IH]; [done|]. simpl flat_map.
  destruct (Ascii.eqb_spec c LF) as [->|Hc].
  - unfold decorate in *. rewrite str_split_nl_LF. simpl map.
    rewrite join_cons, IH; [by rewrite (right_id_L [] (++))|].
    pose proof (split_on_nonempty [nl] T). unfold str_split.
    by destruct (split_on [nl] T).
  - destruct (str_split_nl_other c T Hc) as (x & tl & E & E').
    unfold decorate in *. rewrite E' . rewrite E in IH. simpl map in *.
    destruct (join_cons_tail nl (map (λ line, P ++ line) tl)) as [J HJ].
    rewrite HJ in *. rewrite <-(assoc_L (++)) in IH. apply app_inv_head in IH.
    rewrite <-(assoc_L (++)). simpl. by rewrite IH.
Qed.

(** X1: [decorate] copies the text and puts the prefix at its start and
    behind every line feed; nothing else is added, dropped or moved. *)
Theorem decorate_chars T P :
  decorate T P = P ++ flat_map (λ c, if Ascii.eqb c LF then LF :: P else [c]) T.
Proof. apply decorate_flat_map. Qed.

(** X2: with the empty prefix [decorate] gives the text back: splitting
    at the line feeds and joining again loses nothing. *)
Theorem decorate_empty_prefix T : decorate T [] = T.
Proof. unfold decorate. rewrite map_id. by apply join_split. Qed.

(** X3: [decorate] works line by line: on two texts with a line feed
    between them it gives the two decorated texts with a line feed
    between them. *)
Theorem decorate_app T1 T2 P :
  decorate (T1 ++ nl ++ T2) P = decorate T1 P ++ nl ++ decorate T2 P.
Proof.
  rewrite !decorate_flat_map, !flat_map_app. simpl.
  by rewrite <-!(assoc_L (++)).
Qed.

(** X4: the decorated text is longer than the text by one prefix for
    each of its lines, one more than it has line feeds. *)
Theorem decorate_length T P :
  length (decorate T P) =
    length T + length P * S (length (filter (λ c, c = LF) T)).
Proof.
  rewrite decorate_flat_map, length_app.
  assert (length (flat_map (λ c, if Ascii.eqb c LF then LF :: P else [c]) T) =
          length T + length P * length (filter (λ c, c = LF) T)) as ->; [|lia].
  induction T as [|c T IH]; [simpl; lia|].
  simpl flat_map. rewrite length_app, IH, filter_cons.
  destruct (Ascii.eqb_spec c LF) as [->|Hc].
  - rewrite decide_True by done. simpl. lia.
  - rewrite decide_False by done. simpl. lia.
Qed.

(** X5: [decorate] loses no information: two texts that are decorated
    alike, with the same prefix, are the same text. *)
Theorem decorate_inj T1 T2 P : decorate T1 P = decorate T2 P → T1 = T2.
Proof.
  rewrite !decorate_flat_map. intros H%app_inv_head. revert T2 H.
  induction T1 as [|c1 T1 IH]; intros [|c2 T2]; simpl.
  - done.
  - by destruct (Ascii.eqb c2 LF).
  - by destruct (Ascii.eqb c1 LF).
  - destruct (Ascii.eqb_spec c1 LF) as [->|H1],
             (Ascii.eqb_spec c2 LF) as [->|H2]; simpl.
    + intros [= H%app_inv_head]. f_equal. by apply IH.
    + by intros [= <-].
    + by intros [= ->].
    + intros [= -> H]. f_equal. by apply IH.
Qed.

Lemma decorate_inj_witness : py "a" ++ nl ++ py "b" = py "a" ++ nl ++ py "b".
Proof.
  apply (decorate_inj (py "a" ++ nl ++ py "b") (py "a" ++ nl ++ py "b") (py "//!")).
  reflexivity.
Defined.

(** X6: [text.split("\n")] gives the lines of the text and nothing
    else: it is the one non-empty list of strings without line feed
    that joins to the text. *)
Theorem lines_unique T ls : lines T ls ↔ ls = str_split T nl.
Proof.
  split.
  - intros H. symmetry. by apply split_join.
  - intros ->. apply lines_split.
Qed.

Lemma lines_unique_witness :
  [py "a"; []; py "b"] = str_split (py "a" ++ nl ++ nl ++ py "b") nl.
Proof.
  apply (proj1 (lines_unique (py "a" ++ nl ++ nl ++ py "b") [py "a"; []; py "b"])).
  split_and!; [done | | done]. repeat constructor; compute_done.
Defined.

(** X7: for a non-empty separator, [s.split(sep)] is never empty, none
    of its segments contains the separator, and [sep.join] of them is
    [s] again. *)
Theorem str_split_join s sep :
  sep ≠ [] →
  str_split s sep ≠ [] ∧
  Forall (absent [sep]) (str_split s sep) ∧
  join sep (str_split s sep) = s.
Proof.
  intros Hsep. split_and!.
  - apply split_on_nonempty.
  - apply split_on_segments_absent. by intros ?%list_elem_of_singleton.
  - by apply join_split.
Qed.

Lemma str_split_join_witness :
  str_split (py "a// lib" ++ nl ++ py "b") marker ≠ [] ∧
  Forall (absent [marker]) (str_split (py "a// lib" ++ nl ++ py "b") marker) ∧
  join marker (str_split (py "a// lib" ++ nl ++ py "b") marker) =
    py "a// lib" ++ nl ++ py "b".
Proof. apply (str_split_join (py "a// lib" ++ nl ++ py "b") marker). done. Defined.

(** ** More on the library splice *)

Lemma lib_hit_Ok example text i :
  hit [marker] text i → ∃ out, lib example text = Ok out.
Proof.
  intros (i0 & n0 & E & _)%hit_search.
  pose proof (split_on_nonempty [marker] (drop (i0 + n0) text)) as Hne.
  destruct (split_on [marker] (drop (i0 + n0) text)) as [|y tl] eqn:Ey; [done|].
  eexists. apply (lib_parts _ _ (take i0 text) y tl). unfold str_split.
  by rewrite split_on_unfold, E, Ey by apply marker_nonempty.
Qed.

Lemma lib_Ok_parts example text out :
  lib example text = Ok out →
  ∃ tail, str_split text marker !! 1 = Some tail ∧
          out = decorate example (py "//!") ++ lib_header ++ tail ∧
          absent [marker] tail.
Proof.
  unfold lib, getitem.
  destruct (str_split text marker !! 1) as [tail|] eqn:E; [|done].
  intros [= <-]. exists tail. split_and!; [done..|].
  pose proof (split_on_segments_absent _ marker_nonempty text) as Hall.
  rewrite Forall_lookup in Hall. by eapply Hall.
Qed.

Lemma lib_of_parts example text tail :
  str_split text marker !! 1 = Some tail →
  lib example text = Ok (decorate example (py "//!") ++ lib_header ++ tail).
Proof. unfold lib, getitem. by intros ->. Qed.

(** The library text written for one example, spliced for another. *)
Lemma lib_on_output example1 example2 tail :
  absent [marker] (example1 ++ nl) → absent [marker] tail →
  lib example2 (decorate example1 (py "//!") ++ lib_header ++ tail) =
    Ok (decorate example2 (py "//!") ++ lib_header ++ tail).
Proof.
  intros He Htail. set (doc := decorate example1 (py "//!")).
  apply (lib_parts _ _ (doc ++ nl ++ nl) tail []).
  replace (doc ++ lib_header ++ tail) with ((doc ++ nl ++ nl) ++ marker ++ tail)
    by (unfold lib_header; by rewrite <-!(assoc_L (++))).
  rewrite str_split_marker_cut.
  - f_equal. by apply split_on_absent; [apply marker_nonempty|].
  - apply clear_app.
    + intros j Hj Hhit.
      apply (hit_app_inv_last _ _ LF) in Hhit; [|apply marker_last|done].
      by apply (decorate_marker_absent example1 He j).
    + apply (clear_region _ _ _ "/"%char); [apply marker_head | compute_done].
Qed.

(** X8: the library splice yields a text exactly when the marker occurs
    in the library text, and otherwise raises [IndexError]; the example
    has no say in it. *)
Theorem lib_Ok_iff example text :
  ((∃ out, lib example text = Ok out) ↔ ∃ i, hit [marker] text i) ∧
  (lib example text = Raise IndexError ↔ absent [marker] text).
Proof.
  assert ((∃ out, lib example text = Ok out) → ∃ i, hit [marker] text i) as HOk.
  { intros [out (tail & Htail & _)%lib_Ok_parts]. unfold str_split in Htail.
    rewrite split_on_unfold in Htail by apply marker_nonempty.
    destruct (search [marker] text) as [[i n]|] eqn:E; [|done].
    exists i. apply search_Some in E as [E _]. by eapply hit_by_match. }
  split_and!; [split; [done|] | split].
  - intros [i Hi]. by eapply lib_hit_Ok.
  - intros Hraise i Hi. destruct (lib_hit_Ok example _ _ Hi) as [out Hout]. congruence.
  - intros Ha. unfold lib, str_split.
    by rewrite (split_on_absent _ marker_nonempty text Ha).
Qed.

(** X9: what stands in front of the first marker has no influence on
    the new library text. *)
Theorem lib_ignores_head example before1 before2 rest :
  clear [marker] before1 (marker ++ rest) →
  clear [marker] before2 (marker ++ rest) →
  lib example (before1 ++ marker ++ rest) = lib example (before2 ++ marker ++ rest).
Proof.
  intros H1 H2. unfold lib. by rewrite !str_split_marker_cut.
Qed.

Lemma lib_ignores_head_witness :
  lib (py "E") (py "old doc" ++ nl ++ marker ++ py "code") =
  lib (py "E") (py "//!E" ++ nl ++ nl ++ marker ++ py "code").
Proof.
  apply (lib_ignores_head (py "E") (py "old doc" ++ nl) (py "//!E" ++ nl ++ nl)
           (py "code")).
  - by apply (clear_by_search _ _ _ 8 7).
  - by apply (clear_by_search _ _ _ 6 7).
Defined.

Lemma lib_again example text out example' :
  lib example text = Ok out → ∃ out', lib example' out = Ok out'.
Proof.
  intros (tail & -> & _)%lib_Ok_inv.
  apply (lib_hit_Ok _ _ (length (decorate example (py "//!") ++ nl ++ nl))).
  exists marker. split; [by left|].
  replace (decorate example (py "//!") ++ lib_header ++ tail)
    with ((decorate example (py "//!") ++ nl ++ nl) ++ marker ++ tail)
    by (unfold lib_header; by rewrite <-!(assoc_L (++))).
  rewrite drop_app_length. by apply prefix_app_r.
Qed.

(** X10: a spliced library text can always be spliced again, with any
    example: the marker the splice wrote is found. *)
Theorem lib_output_has_marker example text out example' :
  lib example text = Ok out → ∃ out', lib example' out = Ok out'.
Proof. apply lib_again. Qed.

Lemma lib_output_has_marker_witness :
  ∃ out', lib (py "fn f() {}")
              (decorate (py "x // lib" ++ nl) (py "//!") ++ lib_header ++ py "code")
          = Ok out'.
Proof.
  apply (lib_output_has_marker (py "x // lib" ++ nl) (marker ++ py "code") _
           (py "fn f() {}")).
  reflexivity.
Defined.

(** X11: only the latest example counts.  After a splice with an
    example none of whose lines ends with ["// lib"], a splice with any
    other example gives what it would have given on the original
    library text. *)
Theorem lib_resync example1 example2 text out1 :
  absent [marker] (example1 ++ nl) →
  lib example1 text = Ok out1 →
  lib example2 out1 = lib example2 text.
Proof.
  intros He (tail & Htail & -> & Ha)%lib_Ok_parts.
  rewrite (lib_of_parts example2 text tail) by done.
  by apply lib_on_output.
Qed.

Lemma lib_resync_witness :
  lib (py "fn g() {}")
      (decorate (py "fn f() {}" ++ nl) (py "//!") ++ lib_header ++ py "code") =
  lib (py "fn g() {}") (py "old" ++ nl ++ marker ++ py "code").
Proof.
  apply (lib_resync (py "fn f() {}" ++ nl) (py "fn g() {}")
           (py "old" ++ nl ++ marker ++ py "code")).
  - by apply absent_by_search.
  - reflexivity.
Defined.

Lemma lib_Ok_iff_witness :
  ∃ out, lib (py "E") (py "x" ++ marker ++ py "y") = Ok out.
Proof.
  apply (proj2 (proj1 (lib_Ok_iff (py "E") (py "x" ++ marker ++ py "y")))).
  exists 1. by apply (hit_by_match _ _ _ 7).
Defined.

(** ** More on the readme splice *)

Lemma readme_hits_Ok example text i j :
  hit anchors text i → hit anchors text j → i < j →
  ∃ out, readme example text = Ok out.
Proof.
  pose proof anchors_nonempty as Hne. intros Hi Hj Hij.
  destruct (hit_search _ _ _ Hi) as (i0 & n0 & E0 & Hi0).
  pose proof (search_bounds _ _ _ _ Hne E0) as [? ?].
  pose proof E0 as [Hm0 _]%search_Some.
  assert (i0 + n0 ≤ j) as Hj0.
  { eapply hit_no_overlap; [apply anchors_head | | done | done | lia].
    intros w. apply anchors_tail. by left. }
  apply (hit_drop _ _ (i0 + n0)) in Hj; [|done].
  destruct (hit_search _ _ _ Hj) as (i1 & n1 & E1 & _).
  pose proof (split_on_nonempty anchors
                (drop (i1 + n1) (drop (i0 + n0) text))) as Hz.
  destruct (split_on anchors (drop (i1 + n1) (drop (i0 + n0) text)))
    as [|z tl] eqn:Ez; [done|].
  eexists.
  apply (readme_parts example text (take i0 text)
           (take i1 (drop (i0 + n0) text)) z tl).
  unfold re_split. rewrite split_on_unfold, E0 by done. f_equal.
  by rewrite split_on_unfold, E1, Ez.
Qed.

Lemma readme_Ok_parts example text out :
  readme example text = Ok out →
  ∃ head tail,
    re_split anchors text !! 0 = Some head ∧
    re_split anchors text !! 2 = Some tail ∧
    out = head ++ fence_open ++ example ++ fence_close ++ tail ∧
    absent anchors head ∧ absent anchors tail.
Proof.
  unfold readme, getitem.
  destruct (re_split anchors text !! 0) as [head|] eqn:E0; [|done]. simpl.
  destruct (re_split anchors text !! 2) as [tail|] eqn:E2; [|done].
  intros [= <-]. exists head, tail. rewrite <-!(assoc_L (++)).
  pose proof (split_on_segments_absent _ anchors_nonempty text) as Hall.
  rewrite Forall_lookup in Hall. split_and!; [done.. | by eapply Hall | by eapply Hall].
Qed.

Lemma readme_of_parts example text head tail :
  re_split anchors text !! 0 = Some head →
  re_split anchors text !! 2 = Some tail →
  readme example text = Ok (head ++ fence_open ++ example ++ fence_close ++ tail).
Proof.
  unfold readme, getitem. intros -> ->. simpl. by rewrite <-!(assoc_L (++)).
Qed.

(** The readme written for one example, spliced for another. *)
Lemma readme_on_output example1 example2 head tail :
  absent anchors example1 → absent anchors head → absent anchors tail →
  readme example2 (head ++ fence_open ++ example1 ++ fence_close ++ tail) =
    Ok (head ++ fence_open ++ example2 ++ fence_close ++ tail).
Proof.
  intros He Hhead Htail.
  set (body := (nl ++ py "```rust" ++ nl) ++ example1 ++ py "```" ++ nl ++ nl).
  replace (head ++ fence_open ++ example1 ++ fence_close ++ tail)
    with (head ++ usage ++ body ++ logging ++ tail)
    by (unfold body, fence_open, fence_close; by rewrite <-!(assoc_L (++))).
  apply readme_two_cuts.
  - by left.
  - by right; left.
  - apply (absent_clear _ _ "#"%char); [|done].
    intros w. apply anchors_tail. by left.
  - unfold body. apply clear_app; [|apply clear_app].
    + apply (clear_region _ _ _ "#"%char); [apply anchors_head | compute_done].
    + rewrite <-(assoc_L (++)).
      apply (absent_clear _ _ "`"%char); [|done].
      intros w. apply anchors_tail. by right; left.
    + apply (clear_region _ _ _ "#"%char); [apply anchors_head | compute_done].
  - by left.
Qed.

(** X12: the new readme does not depend on what stood between the first
    two matches, nor on which of the two anchors each of them is. *)
Theorem readme_ignores_body example head a1 body a2 a1' body' a2' rest :
  a1 ∈ anchors → a2 ∈ anchors → a1' ∈ anchors → a2' ∈ anchors →
  clear anchors head (a1 ++ body ++ a2 ++ rest) →
  clear anchors body (a2 ++ rest) →
  clear anchors head (a1' ++ body' ++ a2' ++ rest) →
  clear anchors body' (a2' ++ rest) →
  readme example (head ++ a1 ++ body ++ a2 ++ rest) =
  readme example (head ++ a1' ++ body' ++ a2' ++ rest).
Proof.
  intros. destruct (up_to_match_exists anchors rest) as [tail Htail].
  by rewrite !(readme_two_cuts _ _ _ _ _ _ tail).
Qed.

Lemma readme_ignores_body_witness :
  readme (py "E") (py "A" ++ usage ++ py "old" ++ logging ++ py "C") =
  readme (py "E") (py "A" ++ logging ++ py "other" ++ nl ++ logging ++ py "C").
Proof.
  apply (readme_ignores_body (py "E") (py "A") usage (py "old") logging
           logging (py "other" ++ nl) logging (py "C")).
  - by left.
  - by right; left.
  - by right; left.
  - by right; left.
  - by apply (clear_by_search _ _ _ 1 8).
  - by apply (clear_by_search _ _ _ 3 10).
  - by apply (clear_by_search _ _ _ 1 10).
  - by apply (clear_by_search _ _ _ 6 10).
Defined.

Lemma readme_again example text out example' :
  readme example text = Ok out → ∃ out', readme example' out = Ok out'.
Proof.
  intros (head & tail & -> & _)%readme_Ok_inv.
  set (mid := (nl ++ py "```rust" ++ nl) ++ example ++ py "```" ++ nl ++ nl).
  replace (head ++ fence_open ++ example ++ fence_close ++ tail)
    with (head ++ usage ++ mid ++ logging ++ tail)
    by (unfold mid, fence_open, fence_close; by rewrite <-!(assoc_L (++))).
  apply (readme_hits_Ok _ _ (length head) (length (head ++ usage ++ mid))).
  - exists usage. split; [by left|]. rewrite drop_app_length. by apply prefix_app_r.
  - exists logging. split; [by right; left|].
    replace (head ++ usage ++ mid ++ logging ++ tail)
      with ((head ++ usage ++ mid) ++ logging ++ tail)
      by (by rewrite <-!(assoc_L (++))).
    rewrite drop_app_length. by apply prefix_app_r.
  - rewrite !length_app. simpl. lia.
Qed.

(** X13: a spliced readme can always be spliced again, with any
    example: the two headings the splice wrote are found. *)
Theorem readme_output_has_anchors example text out example' :
  readme example text = Ok out → ∃ out', readme example' out = Ok out'.
Proof. apply readme_again. Qed.

Lemma readme_output_has_anchors_witness :
  ∃ out', readme (py "fn g() {}")
            (py "A" ++ fence_open ++ (usage ++ py "x") ++ fence_close ++ py "C")
          = Ok out'.
Proof.
  apply (readme_output_has_anchors (usage ++ py "x")
           (py "A" ++ usage ++ logging ++ py "C") _ (py "fn g() {}")).
  reflexivity.
Defined.

(** X14: only the latest example counts.  After a splice with an
    example that contains neither anchor, a splice with any other
    example gives what it would have given on the original readme. *)
Theorem readme_resync example1 example2 text out1 :
  absent anchors example1 →
  readme example1 text = Ok out1 →
  readme example2 out1 = readme example2 text.
Proof.
  intros He (head & tail & H0 & H2 & -> & Hhead & Htail)%readme_Ok_parts.
  rewrite (readme_of_parts example2 text head tail) by done.
  by apply readme_on_output.
Qed.

Lemma readme_resync_witness :
  readme (py "fn g() {}")
         (py "A" ++ fence_open ++ py "fn f() {}" ++ fence_close ++ py "C") =
  readme (py "fn g() {}") (py "A" ++ usage ++ py "old" ++ logging ++ py "C").
Proof.
  apply (readme_resync (py "fn f() {}") (py "fn g() {}")
           (py "A" ++ usage ++ py "old" ++ logging ++ py "C")).
  - by apply absent_by_search.
  - reflexivity.
Defined.

(** ** More on the script *)

Lemma lib_Ok_hit example text out :
  lib example text = Ok out → ∃ i, hit [marker] text i.
Proof.
  intros (tail & Htail & _)%lib_Ok_parts. unfold str_split in Htail.
  rewrite split_on_unfold in Htail by apply marker_nonempty.
  destruct (search [marker] text) as [[i n]|] eqn:E; [|done].
  exists i. apply search_Some in E as [E _]. by eapply hit_by_match.
Qed.

Lemma readme_Ok_hits example text out :
  readme example text = Ok out →
  ∃ i j, i < j ∧ hit anchors text i ∧ hit anchors text j.
Proof.
  pose proof anchors_nonempty as Hne.
  intros (head & tail & _ & H2 & _)%readme_Ok_parts. unfold re_split in H2.
  rewrite split_on_unfold in H2 by done.
  destruct (search anchors text) as [[i0 n0]|] eqn:E0; [|done].
  simpl in H2. rewrite split_on_unfold in H2 by done.
  destruct (search anchors (drop (i0 + n0) text)) as [[i1 n1]|] eqn:E1; [|done].
  pose proof (search_bounds _ _ _ _ Hne E0) as [? ?].
  apply search_Some in E0 as [E0 _]. apply search_Some in E1 as [E1 _].
  exists i0, (i0 + n0 + i1). split_and!; [lia | by eapply hit_by_match |].
  apply (hit_drop _ _ (i0 + n0)); [lia|].
  replace (i0 + n0 + i1 - (i0 + n0)) with i1 by lia. by eapply hit_by_match.
Qed.

(** X15: however a run ends, it leaves every file other than
    [src/lib.rs] and [ReadMe.md] as it was; the example is only read. *)
Theorem gen_touches_two_files fs r fs' path :
  gen fs = (r, fs') →
  path ≠ "src/lib.rs" → path ≠ "ReadMe.md" →
  fs' !! path = fs !! path.
Proof.
  unfold gen, mbind, read_file, write_file, lift. intros H ??.
  repeat case_match; simplify_eq; by rewrite ?lookup_insert_ne.
Qed.

Lemma gen_touches_two_files_witness :
  snd (gen scenario) !! "src/example.rs" = scenario !! "src/example.rs".
Proof.
  apply (gen_touches_two_files scenario (fst (gen scenario)) (snd (gen scenario))
           "src/example.rs"); done.
Defined.

(** X16: when the example or the library file is missing, the run
    raises [FileNotFoundError] before anything is written. *)
Theorem gen_missing_input fs :
  fs !! "src/example.rs" = None ∨ fs !! "src/lib.rs" = None →
  gen fs = (Raise FileNotFoundError, fs).
Proof.
  unfold gen, mbind, read_file, write_file, lift. intros [H|H].
  - by rewrite H.
  - destruct (fs !! "src/example.rs"); [by rewrite H | done].
Qed.

Lemma gen_missing_input_witness :
  gen (<["src/example.rs" := py "fn main() {}"]> ∅) =
    (Raise FileNotFoundError, <["src/example.rs" := py "fn main() {}"]> ∅).
Proof.
  apply (gen_missing_input (<["src/example.rs" := py "fn main() {}"]> ∅)).
  right. reflexivity.
Defined.

(** X17: there is no rollback.  When the library splice has succeeded
    and the readme is missing or its splice raises, the run ends with
    that exception, the new library text written and the readme, if
    any, as it was. *)
Theorem gen_partial_write fs example text new_lib :
  fs !! "src/example.rs" = Some example →
  fs !! "src/lib.rs" = Some text →
  lib example text = Ok new_lib →
  (fs !! "ReadMe.md" = None →
   gen fs = (Raise FileNotFoundError, <["src/lib.rs" := new_lib]> fs)) ∧
  (∀ old_readme e,
     fs !! "ReadMe.md" = Some old_readme →
     readme example old_readme = Raise e →
     gen fs = (Raise e, <["src/lib.rs" := new_lib]> fs) ∧
     (<["src/lib.rs" := new_lib]> fs) !! "ReadMe.md" = Some old_readme).
Proof.
  intros He Ht Hlib. unfold gen, mbind, read_file, write_file, lift.
  rewrite He, Ht, Hlib, !lookup_insert_ne by done. split.
  - by intros ->.
  - by intros old_readme e -> ->.
Qed.

Lemma gen_partial_write_witness :
  gen (<["src/example.rs" := py "E"]> (<["src/lib.rs" := marker ++ py "code"]> ∅)) =
    (Raise FileNotFoundError,
     <["src/lib.rs" := decorate (py "E") (py "//!") ++ lib_header ++ py "code"]>
     (<["src/example.rs" := py "E"]> (<["src/lib.rs" := marker ++ py "code"]> ∅))).
Proof.
  apply (gen_partial_write
           (<["src/example.rs" := py "E"]> (<["src/lib.rs" := marker ++ py "code"]> ∅))
           (py "E") (marker ++ py "code")); reflexivity.
Defined.

(** X18: a run succeeds only if the three files are there, the marker
    occurs in the library text and the anchors occur at two places or
    more in the readme; the files it leaves are then the old ones with
    the two spliced texts written. *)
Theorem gen_Ok_only_if fs fs' :
  gen fs = (Ok tt, fs') →
  ∃ example text old_readme new_lib new_readme,
    fs !! "src/example.rs" = Some example ∧
    fs !! "src/lib.rs" = Some text ∧
    fs !! "ReadMe.md" = Some old_readme ∧
    (∃ i, hit [marker] text i) ∧
    (∃ i j, i < j ∧ hit [usage; logging] old_readme i ∧
                    hit [usage; logging] old_readme j) ∧
    lib example text = Ok new_lib ∧
    readme example old_readme = Ok new_readme ∧
    fs' = <["ReadMe.md" := new_readme]> (<["src/lib.rs" := new_lib]> fs).
Proof.
  intros (example & text & new_lib & old_readme & new_readme &
          He & Hl & Hr & Hlib & Hreadme & ->)%gen_Ok_inv.
  exists example, text, old_readme, new_lib, new_readme.
  split_and!; [done.. | | |done|done|done].
  - by eapply lib_Ok_hit.
  - by eapply readme_Ok_hits.
Qed.

Lemma gen_Ok_only_if_witness :
  ∃ example text old_readme new_lib new_readme,
    scenario !! "src/example.rs" = Some example ∧
    scenario !! "src/lib.rs" = Some text ∧
    scenario !! "ReadMe.md" = Some old_readme ∧
    (∃ i, hit [marker] text i) ∧
    (∃ i j, i < j ∧ hit [usage; logging] old_readme i ∧
                    hit [usage; logging] old_readme j) ∧
    lib example text = Ok new_lib ∧
    readme example old_readme = Ok new_readme ∧
    snd (gen scenario) =
      <["ReadMe.md" := new_readme]> (<["src/lib.rs" := new_lib]> scenario).
Proof. apply (gen_Ok_only_if scenario (snd (gen scenario))). reflexivity. Defined.

(** X19: after a successful run, the next run succeeds as well, with
    the example as it is or with any other: the anchors it needs are
    the ones the first run wrote. *)
Theorem gen_again fs fs1 :
  gen fs = (Ok tt, fs1) →
  (∃ fs2, gen fs1 = (Ok tt, fs2)) ∧
  ∀ example', ∃ fs2, gen (<["src/example.rs" := example']> fs1) = (Ok tt, fs2).
Proof.
  intros (example & old_lib & new_lib & old_readme & new_readme &
          He & Hl & Hr & Hlib & Hreadme & ->)%gen_Ok_inv.
  split; [|intros example'].
  - destruct (lib_again _ _ _ example Hlib) as [l2 Hl2].
    destruct (readme_again _ _ _ example Hreadme) as [r2 Hr2].
    eexists. eapply gen_Ok; [| | |done|done].
    + by rewrite !lookup_insert_ne.
    + by rewrite lookup_insert_ne, lookup_insert_eq.
    + apply lookup_insert_eq.
  - destruct (lib_again _ _ _ example' Hlib) as [l2 Hl2].
    destruct (readme_again _ _ _ example' Hreadme) as [r2 Hr2].
    eexists. eapply gen_Ok; [| | |done|done].
    + apply lookup_insert_eq.
    + by rewrite lookup_insert_ne, lookup_insert_ne, lookup_insert_eq.
    + by rewrite lookup_insert_ne, lookup_insert_eq.
Qed.

Lemma gen_again_witness :
  (∃ fs2, gen (snd (gen marked_example)) = (Ok tt, fs2)) ∧
  ∀ example', ∃ fs2,
    gen (<["src/example.rs" := example']> (snd (gen marked_example))) = (Ok tt, fs2).
Proof. apply (gen_again marked_example (snd (gen marked_example))). reflexivity. Defined.

(** X20: only the latest example counts.  After a successful run with
    an example that has no line ending with ["// lib"] and contains
    neither readme anchor, changing the example and running again
    leaves the files that changing the example first and running once
    would have left. *)
Theorem gen_resync fs fs1 example1 example2 :
  fs !! "src/example.rs" = Some example1 →
  absent [marker] (example1 ++ nl) →
  absent anchors example1 →
  gen fs = (Ok tt, fs1) →
  gen (<["src/example.rs" := example2]> fs1) =
  gen (<["src/example.rs" := example2]> fs).
Proof.
  intros He Hmarker Hanchors
    (example' & old_lib & new_lib & old_readme & new_readme &
     He' & Hl & Hr & Hlib & Hreadme & ->)%gen_Ok_inv.
  rewrite He in He'. injection He' as <-.
  apply lib_Ok_parts in Hlib as (tail & Htail & -> & Ha).
  apply readme_Ok_parts in Hreadme as (head & tail' & H0 & H2 & -> & Hhead & Htail').
  erewrite (gen_Ok (<["src/example.rs" := example2]> (<["ReadMe.md" := _]> _)));
    [| apply lookup_insert_eq
     | by rewrite lookup_insert_ne, lookup_insert_ne, lookup_insert_eq
     | by rewrite lookup_insert_ne, lookup_insert_eq
     | by apply lib_on_output
     | by apply readme_on_output ].
  erewrite (gen_Ok (<["src/example.rs" := example2]> fs));
    [| apply lookup_insert_eq
     | by rewrite lookup_insert_ne
     | by rewrite lookup_insert_ne
     | by apply lib_of_parts
     | by apply readme_of_parts ].
  f_equal. apply map_eq. intros path. rewrite !lookup_insert.
  by repeat case_decide.
Qed.

Lemma gen_resync_witness :
  gen (<["src/example.rs" := py "fn g() {}"]> (snd (gen scenario))) =
  gen (<["src/example.rs" := py "fn g() {}"]> scenario).
Proof.
  apply (gen_resync scenario (snd (gen scenario)) (py "fn main() {}" ++ nl)
           (py "fn g() {}")).
  - reflexivity.
  - by apply absent_by_search.
  - by apply absent_by_search.
  - reflexivity.
Defined.

